(** * Contact directory service: a shallow embedding of [src/server.ts]
    and of its older copy [unnamed/part_000].

    Conventions.
    - A JavaScript string is a [string]; each [ascii] stands for one UTF-16
      code unit below 256.
    - A JavaScript number that the handlers compute with is a [num]: either
      [NaN] or an integer (the handlers only ever build numbers with
      [parseInt], [Math.max], [Math.min], [+] and [.length]).  Integers are
      exact.  JavaScript's numbers are doubles: they are exact up to
      [JS.MAX_SAFE_INTEGER] = 2^53 - 1 in magnitude; beyond it [parseInt]
      rounds the digits it reads, and from 1e21 on a number is written out
      in exponent notation (an [OFFSET 1e+24] that the store rejects).
      None of this is modelled: the embedding follows the code on every
      request whose numbers are safe integers.  The limit is clamped into
      [1,1000] and is always one; the offset has no upper clamp, so a
      theorem that promises a page for every offset, or says which offset
      is sent to the store and reported, carries the bound
      [o <= JS.MAX_SAFE_INTEGER] as a hypothesis.
    - Label and name columns of the lookup tables are taken to be NOT NULL;
      the nullable columns of [phone_record] are [option]s.
    - A rejected promise / thrown exception is the [Throw] case of [Result];
      [try { ... } catch] is a [match] on it.
    - The store answers a SELECT with an array of rows or rejects it, as
      mysql2 does: the handlers' [Array.isArray] guards are always passed.
    - Console output is modelled only where a handler's contract talks about
      it (the per-table warning of the locations endpoint). *)

From Stdlib Require Import ZArith List String Ascii Bool Lia DecimalString.
From Stdlib Require Import Sorted Permutation DecimalPos DecimalZ.
Import ListNotations.

Open Scope string_scope.
Open Scope Z_scope.

(* ================================================================== *)
(** * JavaScript primitives used by the server *)
(* ================================================================== *)

Module JS.

(** Numbers: the value of [parseInt] and of [Math.max]/[Math.min] on it. *)
Inductive num : Type :=
| NaN
| Int (z : Z).

Definition isNaN (n : num) : bool :=
  match n with NaN => true | Int _ => false end.

(** [Number.MAX_SAFE_INTEGER], 2^53 - 1: up to it in magnitude every
    integer is a double, [parseInt] reads a digit string exactly and a
    template literal writes the number out digit for digit. *)
Definition MAX_SAFE_INTEGER : Z := 9007199254740991.

(** [Math.max(a, n)] and [Math.min(a, n)] with an integer first argument:
    a [NaN] argument makes the result [NaN]. *)
Definition Math_max (a : Z) (n : num) : num :=
  match n with NaN => NaN | Int z => Int (Z.max a z) end.

Definition Math_min (a : Z) (n : num) : num :=
  match n with NaN => NaN | Int z => Int (Z.min a z) end.

Definition code (c : ascii) : Z := Z.of_nat (nat_of_ascii c).

(** [\d]: the ten ASCII digits. *)
Definition is_digit (c : ascii) : bool :=
  (48 <=? code c) && (code c <=? 57).

Definition digit_value (c : ascii) : Z := code c - 48.

(** White space and line terminators, as [trim] and [parseInt] skip them
    (TAB, LF, VT, FF, CR, SP, NBSP within the modelled range). *)
Definition is_space (c : ascii) : bool :=
  ((9 <=? code c) && (code c <=? 13)) || (code c =? 32) || (code c =? 160).

(** Truthiness of a string: every string but the empty one. *)
Definition truthy (s : string) : bool :=
  match s with EmptyString => false | String _ _ => true end.

(** [a || b] on strings. *)
Definition or_else (a b : string) : string :=
  if truthy a then a else b.

Fixpoint trimStart (s : string) : string :=
  match s with
  | EmptyString => EmptyString
  | String c r => if is_space c then trimStart r else s
  end.

(** [trimEnd]: a character is dropped when it is a space and everything
    after it has been dropped. *)
Fixpoint trimEnd (s : string) : string :=
  match s with
  | EmptyString => EmptyString
  | String c r =>
      match trimEnd r with
      | EmptyString => if is_space c then EmptyString else String c EmptyString
      | r' => String c r'
      end
  end.

Definition trim (s : string) : string := trimEnd (trimStart s).

(** [s.startsWith(p)]. *)
Definition startsWith (s p : string) : bool := prefix p s.

(** [s.substring(1)]. *)
Definition substring1 (s : string) : string :=
  match s with EmptyString => EmptyString | String _ r => r end.

(** [s.replace(/\D/g, '')]: every non-digit is removed. *)
Fixpoint strip_non_digits (s : string) : string :=
  match s with
  | EmptyString => EmptyString
  | String c r =>
      if is_digit c then String c (strip_non_digits r) else strip_non_digits r
  end.

(** The value of the longest prefix of decimal digits, after [acc]. *)
Fixpoint digits_value (acc : Z) (s : string) : Z :=
  match s with
  | EmptyString => acc
  | String c r =>
      if is_digit c then digits_value (10 * acc + digit_value c) r else acc
  end.

Definition starts_with_digit (s : string) : bool :=
  match s with EmptyString => false | String c _ => is_digit c end.

(** [parseInt(s, 10)]: leading white space is skipped, one sign is read,
    then the longest run of digits; what follows is ignored; no digit at
    all gives [NaN].  The value is the exact integer the digits denote,
    which is JavaScript's up to [MAX_SAFE_INTEGER] in magnitude. *)
Definition parseInt10 (s : string) : num :=
  let s := trimStart s in
  let '(sign, s) :=
    match s with
    | String "-" r => (-1, r)
    | String "+" r => (1, r)
    | _ => (1, s)
    end in
  if starts_with_digit s then Int (sign * digits_value 0 s) else NaN.

Definition is_hex_digit (c : ascii) : bool :=
  is_digit c
  || ((65 <=? code c) && (code c <=? 70))
  || ((97 <=? code c) && (code c <=? 102)).

Definition hex_digit_value (c : ascii) : Z :=
  if is_digit c then code c - 48
  else if code c <=? 70 then code c - 55
  else code c - 87.

Fixpoint hex_value (acc : Z) (s : string) : Z :=
  match s with
  | EmptyString => acc
  | String c r =>
      if is_hex_digit c then hex_value (16 * acc + hex_digit_value c) r else acc
  end.

(** [parseInt(s)] without a radix: as [parseInt10], except that a [0x] or
    [0X] prefix selects base 16.  Exact, like [parseInt10]. *)
Definition parseInt (s : string) : num :=
  let s := trimStart s in
  let '(sign, s) :=
    match s with
    | String "-" r => (-1, r)
    | String "+" r => (1, r)
    | _ => (1, s)
    end in
  match s with
  | String "0" (String x r) =>
      if (code x =? 120) || (code x =? 88) then
        match r with
        | String h _ => if is_hex_digit h then Int (sign * hex_value 0 r) else NaN
        | EmptyString => NaN
        end
      else Int (sign * digits_value 0 s)
  | _ => if starts_with_digit s then Int (sign * digits_value 0 s) else NaN
  end.

(** [n.toString()] for an integer: its decimal digits, as JavaScript
    writes every integer below 1e21 in magnitude. *)
Definition toString (z : Z) : string :=
  NilEmpty.string_of_int (Z.to_int z).

End JS.

(* ================================================================== *)
(** * Phone normalisation ([formatWhatsAppNumber]) *)
(* ================================================================== *)

Definition formatWhatsAppNumber (phone : string) : string :=
  if negb (JS.truthy phone) then ""
  else
    let cleaned := JS.strip_non_digits phone in
    if JS.startsWith cleaned "0" then "234" ++ JS.substring1 cleaned
    else if negb (JS.startsWith cleaned "234") then "234" ++ cleaned
    else cleaned.

(** Every character of [s] is a decimal digit. *)
Fixpoint all_digits (s : string) : bool :=
  match s with
  | EmptyString => true
  | String c r => JS.is_digit c && all_digits r
  end.

(* ================================================================== *)
(** * Data model *)
(* ================================================================== *)

(** The eight label tables, in the order the resolver consults them. *)
Inductive Table : Type :=
| location
| mk_cat_info
| md_cat_info
| muas_cat_info
| nrt_cat_info
| field_cat_info
| medical_cat_info
| service_cat_info.

Definition tables : list Table :=
  [location; mk_cat_info; md_cat_info; muas_cat_info;
   nrt_cat_info; field_cat_info; medical_cat_info; service_cat_info].

Definition Table_eqb (a b : Table) : bool :=
  match a, b with
  | location, location | mk_cat_info, mk_cat_info | md_cat_info, md_cat_info
  | muas_cat_info, muas_cat_info | nrt_cat_info, nrt_cat_info
  | field_cat_info, field_cat_info | medical_cat_info, medical_cat_info
  | service_cat_info, service_cat_info => true
  | _, _ => false
  end.

Definition table_name (t : Table) : string :=
  match t with
  | location => "location"
  | mk_cat_info => "mk_cat_info"
  | md_cat_info => "md_cat_info"
  | muas_cat_info => "muas_cat_info"
  | nrt_cat_info => "nrt_cat_info"
  | field_cat_info => "field_cat_info"
  | medical_cat_info => "medical_cat_info"
  | service_cat_info => "service_cat_info"
  end.

(** A row of [phone_record]; a nullable column is an [option]. *)
Record PhoneRecord : Type := {
  record_id : Z;
  rank : option string;
  f_name : option string;
  l_name : option string;
  phone : option string;
  phone1 : option string;
  phone2 : option string;
  location_id : option Z;
  mk_cat_id : option Z;
  md_cat_id : option Z;
  muas_cat_id : option Z;
  nrt_cat_id : option Z;
  field_cat_id : option Z;
  medical_cat_id : option Z;
  service_cat_id : option Z;
  province_id : option Z;
  state_id : option Z
}.

(** A row of [phone_record pr LEFT JOIN province_info p LEFT JOIN state_info s]:
    the record with [p.province] and [s.state_name], NULL when unmatched. *)
Record Row : Type := {
  pr : PhoneRecord;
  province : option string;
  state_name : option string
}.

(** The store: [phone_record], the two reference tables and the eight
    label tables, each a list of rows [(id, text)] in storage order. *)
Record Db : Type := {
  phone_record : list PhoneRecord;
  province_info : list (Z * string);
  state_info : list (Z * string);
  label_table : Table -> list (Z * string)
}.

Module Contact.
Record t : Type := mk {
  id : string;
  name : string;
  location : string;
  phone : string;
  whatsapp : string;
  rank : string;
  province : string;
  state : string;
  category : string
}.
End Contact.

Module Query.
(** [ContactQueryParams]: the query string of a list request. *)
Record t : Type := mk {
  search : option string;
  location : option string;
  province : option string;
  state : option string;
  category : option string;
  limit : option string;
  offset : option string
}.
End Query.

Module Pagination.
Record t : Type := mk {
  total : Z;
  limit : JS.num;
  offset : JS.num;
  hasMore : bool
}.
End Pagination.

(** JSON bodies.  [success] is [true] for the first three and [false] for
    [Failure]; an absent [message] is [None]. *)
Inductive Body : Type :=
| ContactList (data : list Contact.t) (pagination : Pagination.t)
| ContactItem (data : Contact.t)
| Labels (data : list string)
| Failure (error : string) (message : option string).

Record Response : Type := {
  status : Z;
  body : Body
}.

(* ================================================================== *)
(** * The connection pool *)
(* ================================================================== *)

Inductive Result (A : Type) : Type :=
| Rows (a : A)
| Throw (msg : string).
Arguments Rows {A} a.
Arguments Throw {A} msg.

(** One [AND ...] conjunct appended to the [WHERE 1=1] of the list and
    count queries, with its bound pattern. *)
Inductive Cond : Type :=
| NameOrPhoneLike (pat : string)
    (* AND (pr.f_name LIKE ? OR pr.l_name LIKE ? OR pr.phone LIKE ?
            OR pr.phone1 LIKE ? OR pr.phone2 LIKE ?) *)
| ProvinceLike (pat : string)      (* AND p.province LIKE ? *)
| StateLike (pat : string)         (* AND s.state_name LIKE ? *)
| LocationIdIsFirstLike (pat : string).
    (* AND pr.location_id =
         (SELECT location_id FROM location WHERE location LIKE ? LIMIT 1) *)

(** The statements the server sends, indexed by the shape of their rows. *)
Inductive Sql : Type -> Type :=
| SelectLabelById (t : Table) (id : Z) : Sql (list string)
    (* SELECT <label> FROM <t> WHERE <t id> = ? *)
| SelectLabels (t : Table) : Sql (list string)
    (* SELECT <label> FROM <t> *)
| SelectContacts (w : list Cond) (limit offset : Z) : Sql (list Row)
    (* SELECT ... WHERE 1=1 <w> LIMIT <limit> OFFSET <offset>, the two
       numbers written into the text (digit for digit for safe integers) *)
| SelectContactsBound (w : list Cond) (limit offset : JS.num) : Sql (list Row)
    (* SELECT ... WHERE 1=1 <w> LIMIT ? OFFSET ?, both bound *)
| CountContacts (w : list Cond) : Sql Z
    (* SELECT COUNT( * ) as total ... WHERE 1=1 <w> *)
| SelectContactById (id : Z) : Sql (list Row).
    (* SELECT pr.*, p.province, s.state_name ... WHERE pr.record_id = ? *)

(** [pool.execute] (prepared statement) and [pool.query]. *)
Record Pool : Type := {
  execute : forall A, Sql A -> Result A;
  query : forall A, Sql A -> Result A
}.
Arguments execute p {A} s.
Arguments query p {A} s.

(* ================================================================== *)
(** * A reference store: what the statements mean on a [Db] *)
(* ================================================================== *)

Section Store.

(** [like v pat]: the store's [v LIKE pat] under its collation. *)
Variable like : string -> string -> bool.

(** [NULL LIKE pat] is not true. *)
Definition like_col (v : option string) (pat : string) : bool :=
  match v with Some s => like s pat | None => false end.

(** The right-hand rows a LEFT JOIN pairs with a key: the matching texts,
    or one NULL when nothing matches (or the key is NULL). *)
Definition left_join (tbl : list (Z * string)) (key : option Z)
  : list (option string) :=
  match key with
  | None => [None]
  | Some k =>
      match filter (fun r => fst r =? k) tbl with
      | [] => [None]
      | ms => map (fun r => Some (snd r)) ms
      end
  end.

Definition joined (db : Db) : list Row :=
  flat_map
    (fun r =>
       flat_map
         (fun p => map (fun s => Build_Row r p s)
                       (left_join (state_info db) (state_id r)))
         (left_join (province_info db) (province_id r)))
    (phone_record db).

(** [(SELECT location_id FROM location WHERE location LIKE ? LIMIT 1)]:
    the id of the first matching row, NULL when there is none. *)
Definition first_location_like (db : Db) (pat : string) : option Z :=
  match filter (fun l => like (snd l) pat) (label_table db location) with
  | [] => None
  | l :: _ => Some (fst l)
  end.

Definition eval_cond (db : Db) (r : Row) (c : Cond) : bool :=
  match c with
  | NameOrPhoneLike pat =>
      like_col (f_name (pr r)) pat || like_col (l_name (pr r)) pat
      || like_col (phone (pr r)) pat || like_col (phone1 (pr r)) pat
      || like_col (phone2 (pr r)) pat
  | ProvinceLike pat => like_col (province r) pat
  | StateLike pat => like_col (state_name r) pat
  | LocationIdIsFirstLike pat =>
      match location_id (pr r), first_location_like db pat with
      | Some a, Some b => a =? b
      | _, _ => false
      end
  end.

(** The joined rows that satisfy every conjunct. *)
Definition matching (db : Db) (w : list Cond) : list Row :=
  filter (fun r => forallb (eval_cond db r) w) (joined db).

(** [LIMIT l OFFSET o]; a negative bound is a syntax error. *)
Definition page (l o : Z) (rows : list Row) : Result (list Row) :=
  if (l <? 0) || (o <? 0) then Throw "You have an error in your SQL syntax"
  else Rows (firstn (Z.to_nat l) (skipn (Z.to_nat o) rows)).

Definition run (db : Db) (A : Type) (q : Sql A) : Result A :=
  match q in Sql T return Result T with
  | SelectLabelById t id =>
      Rows (map snd (filter (fun r => fst r =? id) (label_table db t)))
  | SelectLabels t => Rows (map snd (label_table db t))
  | SelectContacts w l o => page l o (matching db w)
  | SelectContactsBound w l o =>
      match l, o with
      | JS.Int l, JS.Int o => page l o (matching db w)
      | _, _ => Throw "Incorrect arguments to mysqld_stmt_execute"
      end
  | CountContacts w => Rows (Z.of_nat (List.length (matching db w)))
  | SelectContactById id =>
      Rows (filter (fun r => record_id (pr r) =? id) (joined db))
  end.

(** A pool on a reachable store: both methods run the statement. *)
Definition pool_of (db : Db) : Pool :=
  {| execute := run db; query := run db |}.

End Store.

(** A pool whose statements on table [t] fail (the rest go to [pool]). *)
Definition reads_label_table (t : Table) (A : Type) (q : Sql A) : bool :=
  match q with
  | SelectLabelById t' _ => Table_eqb t t'
  | SelectLabels t' => Table_eqb t t'
  | _ => false
  end.

Definition without_table (t : Table) (pool : Pool) : Pool :=
  {| execute := fun A q =>
       if reads_label_table t A q then Throw "table unavailable"
       else execute pool q;
     query := fun A q =>
       if reads_label_table t A q then Throw "table unavailable"
       else query pool q |}.

(* ================================================================== *)
(** * Category resolution ([getLocationName]) *)
(* ================================================================== *)

(** One block of the body,
    [if (id > 0) { rows = await pool.execute(..., [id]);
                   if (rows.length > 0) return rows[0].<label>; }],
    followed by the [rest] of the body.  A rejected [execute] leaves the
    [try] at once. *)
Definition lookup_then (pool : Pool) (t : Table) (id : Z)
    (rest : Result string) : Result string :=
  if 0 <? id then
    match execute pool (SelectLabelById t id) with
    | Throw e => Throw e
    | Rows (label :: _) => Rows label
    | Rows [] => rest
    end
  else rest.

(** The body of the [try]. *)
Definition getLocationName_try (pool : Pool)
    (locationId mkCatId mdCatId muasCatId nrtCatId
     fieldCatId medicalCatId serviceCatId : Z) : Result string :=
  lookup_then pool location locationId
  (lookup_then pool mk_cat_info mkCatId
  (lookup_then pool md_cat_info mdCatId
  (lookup_then pool muas_cat_info muasCatId
  (lookup_then pool nrt_cat_info nrtCatId
  (lookup_then pool field_cat_info fieldCatId
  (lookup_then pool medical_cat_info medicalCatId
  (lookup_then pool service_cat_info serviceCatId
  (Rows "Unknown")))))))).

(** [try { ... } catch (error) { console.error(...); return 'Unknown'; }] *)
Definition getLocationName (pool : Pool)
    (locationId mkCatId mdCatId muasCatId nrtCatId
     fieldCatId medicalCatId serviceCatId : Z) : string :=
  match getLocationName_try pool locationId mkCatId mdCatId muasCatId
          nrtCatId fieldCatId medicalCatId serviceCatId with
  | Rows label => label
  | Throw _ => "Unknown"
  end.

(** The key the resolver holds for a table, out of its eight arguments. *)
Definition key_of
    (locationId mkCatId mdCatId muasCatId nrtCatId
     fieldCatId medicalCatId serviceCatId : Z) (t : Table) : Z :=
  match t with
  | location => locationId
  | mk_cat_info => mkCatId
  | md_cat_info => mdCatId
  | muas_cat_info => muasCatId
  | nrt_cat_info => nrtCatId
  | field_cat_info => fieldCatId
  | medical_cat_info => medicalCatId
  | service_cat_info => serviceCatId
  end.

(** Position of a table in the resolver's order. *)
Definition priority (t : Table) : nat :=
  match t with
  | location => 0
  | mk_cat_info => 1
  | md_cat_info => 2
  | muas_cat_info => 3
  | nrt_cat_info => 4
  | field_cat_info => 5
  | medical_cat_info => 6
  | service_cat_info => 7
  end%nat.

(* ================================================================== *)
(** * Values read off a row *)
(* ================================================================== *)

(** [row.x || 0] on a nullable integer column. *)
Definition or_zero (v : option Z) : Z :=
  match v with Some z => z | None => 0 end.

(** [row.x || d] on a nullable text column: NULL and [''] are falsy. *)
Definition text_or (v : option string) (d : string) : string :=
  match v with Some s => JS.or_else s d | None => d end.

(** [p && p.trim()] on an optional query parameter. *)
Definition given (p : option string) : bool :=
  match p with
  | Some s => JS.truthy s && JS.truthy (JS.trim s)
  | None => false
  end.

(** The parameter's text where it is present. *)
Definition text (p : option string) : string :=
  match p with Some s => s | None => "" end.

(** [arr.push(x)]. *)
Definition push {A : Type} (arr : list A) (x : A) : list A :=
  (arr ++ [x])%list.

(** The template [`%${s}%`]. *)
Definition wrap (s : string) : string := "%" ++ s ++ "%".

(** [locations.includes(label)]. *)
Definition includes (locations : list string) (label : string) : bool :=
  existsb (String.eqb label) locations.

(** [Array.prototype.sort()] without a comparator: ascending by code units. *)
Fixpoint insert_sorted (s : string) (l : list string) : list string :=
  match l with
  | [] => [s]
  | x :: r => if String.leb s x then s :: l else x :: insert_sorted s r
  end.

Definition sort (l : list string) : list string :=
  fold_right insert_sorted [] l.

(* ================================================================== *)
(** * The handlers of [src/server.ts] *)
(* ================================================================== *)

Module Server.

Section Handlers.

(** [process.env.NODE_ENV === 'development'] *)
Variable development : bool.
Variable pool : Pool.

(** ** [GET /api/contacts] *)
Definition contacts (q : Query.t) : Response :=
  let limit :=
    match Query.limit q with
    | Some limitParam =>
        if JS.truthy limitParam
        then JS.Math_max 1 (JS.Math_min 1000 (JS.parseInt10 limitParam))
        else JS.Int 50
    | None => JS.Int 50
    end in
  let offset :=
    match Query.offset q with
    | Some offsetParam =>
        if JS.truthy offsetParam
        then JS.Math_max 0 (JS.parseInt10 offsetParam)
        else JS.Int 0
    | None => JS.Int 0
    end in
  match limit, offset with
  | JS.Int limit, JS.Int offset =>
      let queryParams : list Cond := [] in
      let queryParams :=
        if given (Query.search q)
        then push queryParams (NameOrPhoneLike (wrap (JS.trim (text (Query.search q)))))
        else queryParams in
      let queryParams :=
        if given (Query.province q)
        then push queryParams (ProvinceLike (wrap (JS.trim (text (Query.province q)))))
        else queryParams in
      let queryParams :=
        if given (Query.state q)
        then push queryParams (StateLike (wrap (JS.trim (text (Query.state q)))))
        else queryParams in
      let queryParams :=
        if given (Query.location q)
        then push queryParams (LocationIdIsFirstLike (wrap (JS.trim (text (Query.location q)))))
        else queryParams in
      match execute pool (SelectContacts queryParams limit offset) with
      | Throw message =>
          {| status := 500;
             body := Failure "Internal server error"
                       (if development then Some message else None) |}
      | Rows [] =>
          {| status := 200;
             body := ContactList []
                       (Pagination.mk 0 (JS.Int limit) (JS.Int offset) false) |}
      | Rows rows =>
          let contacts :=
            map (fun row =>
                   let locationName :=
                     getLocationName pool
                       (or_zero (location_id (pr row)))
                       (or_zero (mk_cat_id (pr row)))
                       (or_zero (md_cat_id (pr row)))
                       (or_zero (muas_cat_id (pr row)))
                       (or_zero (nrt_cat_id (pr row)))
                       (or_zero (field_cat_id (pr row)))
                       (or_zero (medical_cat_id (pr row)))
                       (or_zero (service_cat_id (pr row))) in
                   let fullName :=
                     JS.trim (text_or (f_name (pr row)) "" ++ " "
                              ++ text_or (l_name (pr row)) "") in
                   let primaryPhone :=
                     text_or (phone (pr row))
                       (text_or (phone1 (pr row))
                          (text_or (phone2 (pr row)) "")) in
                   Contact.mk
                     (JS.toString (record_id (pr row)))
                     (JS.or_else fullName "Unknown")
                     locationName
                     primaryPhone
                     (formatWhatsAppNumber primaryPhone)
                     (text_or (rank (pr row)) "")
                     (text_or (province row) "")
                     (text_or (state_name row) "")
                     locationName)
                rows in
          let countParams : list Cond := [] in
          let countParams :=
            if given (Query.search q)
            then push countParams (NameOrPhoneLike (wrap (JS.trim (text (Query.search q)))))
            else countParams in
          let countParams :=
            if given (Query.province q)
            then push countParams (ProvinceLike (wrap (JS.trim (text (Query.province q)))))
            else countParams in
          let countParams :=
            if given (Query.state q)
            then push countParams (StateLike (wrap (JS.trim (text (Query.state q)))))
            else countParams in
          let countParams :=
            if given (Query.location q)
            then push countParams (LocationIdIsFirstLike (wrap (JS.trim (text (Query.location q)))))
            else countParams in
          match execute pool (CountContacts countParams) with
          | Throw message =>
              {| status := 500;
                 body := Failure "Internal server error"
                           (if development then Some message else None) |}
          | Rows total =>
              {| status := 200;
                 body := ContactList contacts
                           (Pagination.mk total (JS.Int limit) (JS.Int offset)
                              (offset + Z.of_nat (List.length contacts) <? total)) |}
          end
      end
  | _, _ =>
      {| status := 400;
         body := Failure "Invalid limit or offset parameters" None |}
  end.

(** ** [GET /api/contacts-alt]: the same handler on [pool.query] *)
Definition contacts_alt (q : Query.t) : Response :=
  let limit :=
    match Query.limit q with
    | Some limitParam =>
        if JS.truthy limitParam
        then JS.Math_max 1 (JS.Math_min 1000 (JS.parseInt10 limitParam))
        else JS.Int 50
    | None => JS.Int 50
    end in
  let offset :=
    match Query.offset q with
    | Some offsetParam =>
        if JS.truthy offsetParam
        then JS.Math_max 0 (JS.parseInt10 offsetParam)
        else JS.Int 0
    | None => JS.Int 0
    end in
  match limit, offset with
  | JS.Int limit, JS.Int offset =>
      let queryParams : list Cond := [] in
      let queryParams :=
        if given (Query.search q)
        then push queryParams (NameOrPhoneLike (wrap (JS.trim (text (Query.search q)))))
        else queryParams in
      let queryParams :=
        if given (Query.province q)
        then push queryParams (ProvinceLike (wrap (JS.trim (text (Query.province q)))))
        else queryParams in
      let queryParams :=
        if given (Query.state q)
        then push queryParams (StateLike (wrap (JS.trim (text (Query.state q)))))
        else queryParams in
      let queryParams :=
        if given (Query.location q)
        then push queryParams (LocationIdIsFirstLike (wrap (JS.trim (text (Query.location q)))))
        else queryParams in
      match query pool (SelectContacts queryParams limit offset) with
      | Throw message =>
          {| status := 500;
             body := Failure "Internal server error"
                       (if development then Some message else None) |}
      | Rows [] =>
          {| status := 200;
             body := ContactList []
                       (Pagination.mk 0 (JS.Int limit) (JS.Int offset) false) |}
      | Rows rows =>
          let contacts :=
            map (fun row =>
                   let locationName :=
                     getLocationName pool
                       (or_zero (location_id (pr row)))
                       (or_zero (mk_cat_id (pr row)))
                       (or_zero (md_cat_id (pr row)))
                       (or_zero (muas_cat_id (pr row)))
                       (or_zero (nrt_cat_id (pr row)))
                       (or_zero (field_cat_id (pr row)))
                       (or_zero (medical_cat_id (pr row)))
                       (or_zero (service_cat_id (pr row))) in
                   let fullName :=
                     JS.trim (text_or (f_name (pr row)) "" ++ " "
                              ++ text_or (l_name (pr row)) "") in
                   let primaryPhone :=
                     text_or (phone (pr row))
                       (text_or (phone1 (pr row))
                          (text_or (phone2 (pr row)) "")) in
                   Contact.mk
                     (JS.toString (record_id (pr row)))
                     (JS.or_else fullName "Unknown")
                     locationName
                     primaryPhone
                     (formatWhatsAppNumber primaryPhone)
                     (text_or (rank (pr row)) "")
                     (text_or (province row) "")
                     (text_or (state_name row) "")
                     locationName)
                rows in
          let countParams : list Cond := [] in
          let countParams :=
            if given (Query.search q)
            then push countParams (NameOrPhoneLike (wrap (JS.trim (text (Query.search q)))))
            else countParams in
          let countParams :=
            if given (Query.province q)
            then push countParams (ProvinceLike (wrap (JS.trim (text (Query.province q)))))
            else countParams in
          let countParams :=
            if given (Query.state q)
            then push countParams (StateLike (wrap (JS.trim (text (Query.state q)))))
            else countParams in
          let countParams :=
            if given (Query.location q)
            then push countParams (LocationIdIsFirstLike (wrap (JS.trim (text (Query.location q)))))
            else countParams in
          match query pool (CountContacts countParams) with
          | Throw message =>
              {| status := 500;
                 body := Failure "Internal server error"
                           (if development then Some message else None) |}
          | Rows total =>
              {| status := 200;
                 body := ContactList contacts
                           (Pagination.mk total (JS.Int limit) (JS.Int offset)
                              (offset + Z.of_nat (List.length contacts) <? total)) |}
          end
      end
  | _, _ =>
      {| status := 400;
         body := Failure "Invalid limit or offset parameters" None |}
  end.

(** ** [GET /api/contacts/:id] *)
Definition contact_by_id (id : string) : Response :=
  match JS.parseInt10 id with
  | JS.NaN => {| status := 400; body := Failure "Invalid contact ID" None |}
  | JS.Int contactId =>
      match execute pool (SelectContactById contactId) with
      | Throw _ =>
          {| status := 500; body := Failure "Internal server error" None |}
      | Rows [] =>
          {| status := 404; body := Failure "Contact not found" None |}
      | Rows (row :: _) =>
          let locationName :=
            getLocationName pool
              (or_zero (location_id (pr row)))
              (or_zero (mk_cat_id (pr row)))
              (or_zero (md_cat_id (pr row)))
              (or_zero (muas_cat_id (pr row)))
              (or_zero (nrt_cat_id (pr row)))
              (or_zero (field_cat_id (pr row)))
              (or_zero (medical_cat_id (pr row)))
              (or_zero (service_cat_id (pr row))) in
          let fullName :=
            JS.trim (text_or (f_name (pr row)) "" ++ " "
                     ++ text_or (l_name (pr row)) "") in
          let primaryPhone :=
            text_or (phone (pr row))
              (text_or (phone1 (pr row)) (text_or (phone2 (pr row)) "")) in
          {| status := 200;
             body := ContactItem
               (Contact.mk
                  (JS.toString (record_id (pr row)))
                  (JS.or_else fullName "Unknown")
                  locationName
                  primaryPhone
                  (formatWhatsAppNumber primaryPhone)
                  (text_or (rank (pr row)) "")
                  (text_or (province row) "")
                  (text_or (state_name row) "")
                  locationName) |}
      end
  end.

(** ** [GET /api/locations]

    The loop state is the warnings written so far and the [locations]
    array. *)
Definition add_label (locations : list string) (label : string)
  : list string :=
  if JS.truthy label && negb (includes locations label)
  then push locations label
  else locations.

Definition read_table (st : list string * list string) (t : Table)
  : list string * list string :=
  match execute pool (SelectLabels t) with
  | Rows rows => (fst st, fold_left add_label rows (snd st))
  | Throw _ =>
      (push (fst st) ("Error fetching from " ++ table_name t ++ ":"), snd st)
  end.

(** The warnings, and the response. *)
Definition locations : list string * Response :=
  let st := fold_left read_table tables ([], []) in
  (fst st, {| status := 200; body := Labels (sort (snd st)) |}).

End Handlers.

End Server.

(* ================================================================== *)
(** * The handlers of the older copy, [unnamed/part_000] *)
(* ================================================================== *)

(** [n + k] and [n < t] on a number that may be [NaN]. *)
Definition num_add (n : JS.num) (k : Z) : JS.num :=
  match n with JS.NaN => JS.NaN | JS.Int z => JS.Int (z + k) end.

Definition num_ltb (n : JS.num) (t : Z) : bool :=
  match n with JS.NaN => false | JS.Int z => z <? t end.

(** [if (p)] on an optional query parameter. *)
Definition present (p : option string) : bool :=
  match p with Some s => JS.truthy s | None => false end.

(** A destructuring default, [{ p = d }]: used when [p] is undefined. *)
Definition default_to (p : option string) (d : string) : string :=
  match p with Some s => s | None => d end.

Module Legacy.

Section Handlers.

Variable development : bool.
Variable pool : Pool.

(** ** [GET /api/contacts] *)
Definition contacts (q : Query.t) : Response :=
  let limit := default_to (Query.limit q) "50" in
  let offset := default_to (Query.offset q) "0" in
  let queryParams : list Cond := [] in
  let queryParams :=
    if present (Query.search q)
    then push queryParams (NameOrPhoneLike (wrap (text (Query.search q))))
    else queryParams in
  let queryParams :=
    if present (Query.province q)
    then push queryParams (ProvinceLike (wrap (text (Query.province q))))
    else queryParams in
  let queryParams :=
    if present (Query.state q)
    then push queryParams (StateLike (wrap (text (Query.state q))))
    else queryParams in
  match execute pool
          (SelectContactsBound queryParams
             (JS.parseInt limit) (JS.parseInt offset)) with
  | Throw message =>
      {| status := 500;
         body := Failure "Internal server error"
                   (if development then Some message else None) |}
  | Rows rows =>
      let contacts :=
        map (fun row =>
               let locationName :=
                 getLocationName pool
                   (or_zero (location_id (pr row)))
                   (or_zero (mk_cat_id (pr row)))
                   (or_zero (md_cat_id (pr row)))
                   (or_zero (muas_cat_id (pr row)))
                   (or_zero (nrt_cat_id (pr row)))
                   (or_zero (field_cat_id (pr row)))
                   (or_zero (medical_cat_id (pr row)))
                   (or_zero (service_cat_id (pr row))) in
               let fullName :=
                 JS.trim (text_or (f_name (pr row)) "" ++ " "
                          ++ text_or (l_name (pr row)) "") in
               let primaryPhone :=
                 text_or (phone (pr row))
                   (text_or (phone1 (pr row))
                      (text_or (phone2 (pr row)) "")) in
               Contact.mk
                 (JS.toString (record_id (pr row)))
                 (JS.or_else fullName "Unknown")
                 locationName
                 primaryPhone
                 (formatWhatsAppNumber primaryPhone)
                 (text_or (rank (pr row)) "")
                 (text_or (province row) "")
                 (text_or (state_name row) "")
                 locationName)
            rows in
      let countParams : list Cond := [] in
      let countParams :=
        if present (Query.search q)
        then push countParams (NameOrPhoneLike (wrap (text (Query.search q))))
        else countParams in
      let countParams :=
        if present (Query.province q)
        then push countParams (ProvinceLike (wrap (text (Query.province q))))
        else countParams in
      let countParams :=
        if present (Query.state q)
        then push countParams (StateLike (wrap (text (Query.state q))))
        else countParams in
      match execute pool (CountContacts countParams) with
      | Throw message =>
          {| status := 500;
             body := Failure "Internal server error"
                       (if development then Some message else None) |}
      | Rows total =>
          {| status := 200;
             body := ContactList contacts
                       (Pagination.mk total
                          (JS.parseInt limit) (JS.parseInt offset)
                          (num_ltb
                             (num_add (JS.parseInt offset)
                                (Z.of_nat (List.length contacts)))
                             total)) |}
      end
  end.

(** ** [GET /api/contacts/:id]

    The older copy does not validate [id]: its text is bound as it is to
    [WHERE pr.record_id = ?].  How the store compares the column with a
    text is not the server's doing: [by_text id] stands for the outcome of
    [pool.execute(query, [id])]. *)
Definition contact_by_id (by_text : string -> Result (list Row))
    (id : string) : Response :=
  match by_text id with
  | Throw _ =>
      {| status := 500; body := Failure "Internal server error" None |}
  | Rows [] =>
      {| status := 404; body := Failure "Contact not found" None |}
  | Rows (row :: _) =>
      let locationName :=
        getLocationName pool
          (or_zero (location_id (pr row)))
          (or_zero (mk_cat_id (pr row)))
          (or_zero (md_cat_id (pr row)))
          (or_zero (muas_cat_id (pr row)))
          (or_zero (nrt_cat_id (pr row)))
          (or_zero (field_cat_id (pr row)))
          (or_zero (medical_cat_id (pr row)))
          (or_zero (service_cat_id (pr row))) in
      let fullName :=
        JS.trim (text_or (f_name (pr row)) "" ++ " "
                 ++ text_or (l_name (pr row)) "") in
      let primaryPhone :=
        text_or (phone (pr row))
          (text_or (phone1 (pr row))
             (text_or (phone2 (pr row)) "")) in
      {| status := 200;
         body :=
           ContactItem
             (Contact.mk
                (JS.toString (record_id (pr row)))
                (JS.or_else fullName "Unknown")
                locationName
                primaryPhone
                (formatWhatsAppNumber primaryPhone)
                (text_or (rank (pr row)) "")
                (text_or (province row) "")
                (text_or (state_name row) "")
                locationName) |}
  end.

(** ** [GET /api/locations]: one [try] around the whole loop *)
Definition add_label (locations : list string) (label : string)
  : list string :=
  if JS.truthy label && negb (includes locations label)
  then push locations label
  else locations.

Definition read_table (st : Result (list string)) (t : Table)
  : Result (list string) :=
  match st with
  | Throw e => Throw e
  | Rows locations =>
      match execute pool (SelectLabels t) with
      | Rows rows => Rows (fold_left add_label rows locations)
      | Throw e => Throw e
      end
  end.

Definition locations : Response :=
  match fold_left read_table tables (Rows []) with
  | Rows locations => {| status := 200; body := Labels (sort locations) |}
  | Throw _ =>
      {| status := 500; body := Failure "Internal server error" None |}
  end.

End Handlers.

End Legacy.

(* ================================================================== *)
(** * A concrete [LIKE] and sample data *)
(* ================================================================== *)

(** [LIKE] under a binary collation: [%] matches any run of characters,
    [_] any one character, every other character itself. *)
Fixpoint like_pattern (pat : string) : string -> bool :=
  match pat with
  | EmptyString =>
      fun s => match s with EmptyString => true | String _ _ => false end
  | String c pat' =>
      if (c =? "%")%char then
        fix any (s : string) : bool :=
          like_pattern pat' s
          || match s with EmptyString => false | String _ s' => any s' end
      else if (c =? "_")%char then
        fun s =>
          match s with
          | EmptyString => false
          | String _ s' => like_pattern pat' s'
          end
      else
        fun s =>
          match s with
          | EmptyString => false
          | String d s' => (c =? d)%char && like_pattern pat' s'
          end
  end.

Definition like_binary (v pat : string) : bool := like_pattern pat v.

Definition no_query : Query.t :=
  Query.mk None None None None None None None.

Definition john : PhoneRecord :=
  {| record_id := 1; rank := Some "Col"; f_name := Some "John";
     l_name := Some "Doe"; phone := Some "08011112222"; phone1 := None;
     phone2 := None; location_id := Some 3; mk_cat_id := Some 0;
     md_cat_id := Some 0; muas_cat_id := Some 0; nrt_cat_id := Some 0;
     field_cat_id := Some 0; medical_cat_id := Some 0;
     service_cat_id := Some 0; province_id := Some 1; state_id := Some 2 |}.

Definition ada : PhoneRecord :=
  {| record_id := 12; rank := None; f_name := Some "Ada";
     l_name := Some ""; phone := None; phone1 := Some "8031234567";
     phone2 := None; location_id := Some 9; mk_cat_id := Some 5;
     md_cat_id := Some 7; muas_cat_id := None; nrt_cat_id := None;
     field_cat_id := None; medical_cat_id := None;
     service_cat_id := None; province_id := None; state_id := Some 8 |}.

Definition sample_labels (t : Table) : list (Z * string) :=
  match t with
  | location => [(3, "Lagos Hub"); (4, "Abuja Hub")]
  | mk_cat_info => [(5, "Makkah Five")]
  | md_cat_info => [(7, "Madinah Seven"); (8, "Lagos Hub")]
  | _ => []
  end.

Definition sample_db : Db :=
  {| phone_record := [john; ada];
     province_info := [(1, "Lagos")];
     state_info := [(2, "Lagos State")];
     label_table := sample_labels |}.

(** The same store with an empty [mk_cat_info]. *)
Definition db_without_mk : Db :=
  {| phone_record := [john; ada];
     province_info := [(1, "Lagos")];
     state_info := [(2, "Lagos State")];
     label_table := fun t =>
       match t with mk_cat_info => [] | _ => sample_labels t end |}.

Definition sample_pool : Pool := pool_of like_binary sample_db.

(** A store that cannot be reached: every statement is rejected. *)
Definition unreachable : Pool :=
  {| execute := fun _ _ => Throw "connect ECONNREFUSED";
     query := fun _ _ => Throw "connect ECONNREFUSED" |}.

(** The same pool with the label-listing statement on [t] answering no rows. *)
Definition with_empty_table (t : Table) (pool : Pool) : Pool :=
  {| execute := fun A q =>
       match q in Sql T return Result T -> Result T with
       | SelectLabels t' => fun r => if Table_eqb t t' then Rows [] else r
       | _ => fun r => r
       end (execute pool q);
     query := @query pool |}.

(** The same pool, refusing every paged list statement whose bounds are not
    exactly [LIMIT l OFFSET o]. *)
Definition only_page (l o : Z) (pool : Pool) : Pool :=
  let guard (run : forall A, Sql A -> Result A) (A : Type) (q : Sql A)
      : Result A :=
    match q in Sql T return Result T -> Result T with
    | SelectContacts _ l' o' =>
        fun r => if (l' =? l) && (o' =? o) then r else Throw "other bounds"
    | SelectContactsBound _ _ _ => fun _ => Throw "other bounds"
    | _ => fun r => r
    end (run A q) in
  {| execute := guard (@execute pool); query := guard (@query pool) |}.

(* ================================================================== *)
(** * The specification's words, and normal forms of the code *)
(* ================================================================== *)

(** Phone normalisation: strip the non-digits; a leading "0" is replaced by
    "234"; otherwise "234" is prepended unless already there; the empty
    input gives the empty output. *)
Definition whatsapp_spec (p : string) : string :=
  match p with
  | EmptyString => ""
  | _ =>
      let cleaned :=
        string_of_list_ascii (filter JS.is_digit (list_ascii_of_string p)) in
      match cleaned with
      | String "0" rest => "234" ++ rest
      | _ => if prefix "234" cleaned then cleaned else "234" ++ cleaned
      end
  end.

(** Effective limit: 50 when absent, otherwise clamped into [1,1000];
    [None] when the request is rejected. *)
Definition effective_limit (p : option string) : option Z :=
  match p with
  | None | Some EmptyString => Some 50
  | Some s =>
      match JS.parseInt10 s with
      | JS.Int n => Some (Z.max 1 (Z.min 1000 n))
      | JS.NaN => None
      end
  end.

(** Effective offset: 0 when absent, otherwise clamped to be at least 0. *)
Definition effective_offset (p : option string) : option Z :=
  match p with
  | None | Some EmptyString => Some 0
  | Some s =>
      match JS.parseInt10 s with
      | JS.Int n => Some (Z.max 0 n)
      | JS.NaN => None
      end
  end.

(** The filter predicate of a request: one conjunct per filter that is
    present after trimming. *)
Definition filters (q : Query.t) : list Cond :=
  ((if given (Query.search q)
    then [NameOrPhoneLike (wrap (JS.trim (text (Query.search q))))] else [])
   ++ (if given (Query.province q)
       then [ProvinceLike (wrap (JS.trim (text (Query.province q))))] else [])
   ++ (if given (Query.state q)
       then [StateLike (wrap (JS.trim (text (Query.state q))))] else [])
   ++ (if given (Query.location q)
       then [LocationIdIsFirstLike (wrap (JS.trim (text (Query.location q))))]
       else []))%list.

(** Contact assembly for one joined row. *)
Definition assemble (pool : Pool) (row : Row) : Contact.t :=
  let label :=
    getLocationName pool
      (or_zero (location_id (pr row))) (or_zero (mk_cat_id (pr row)))
      (or_zero (md_cat_id (pr row))) (or_zero (muas_cat_id (pr row)))
      (or_zero (nrt_cat_id (pr row))) (or_zero (field_cat_id (pr row)))
      (or_zero (medical_cat_id (pr row))) (or_zero (service_cat_id (pr row))) in
  let primary :=
    text_or (phone (pr row))
      (text_or (phone1 (pr row)) (text_or (phone2 (pr row)) "")) in
  {| Contact.id := JS.toString (record_id (pr row));
     Contact.name :=
       JS.or_else
         (JS.trim (text_or (f_name (pr row)) "" ++ " "
                   ++ text_or (l_name (pr row)) ""))
         "Unknown";
     Contact.location := label;
     Contact.phone := primary;
     Contact.whatsapp := formatWhatsAppNumber primary;
     Contact.rank := text_or (rank (pr row)) "";
     Contact.province := text_or (province row) "";
     Contact.state := text_or (state_name row) "";
     Contact.category := label |}.

(** [Int] of an effective bound, [NaN] for a rejected one. *)
Definition num_of (v : option Z) : JS.num :=
  match v with Some z => JS.Int z | None => JS.NaN end.

(** The two list handlers of [server.ts] written once, over the pool method
    [run] that the handler sends its two statements through: a 400 for
    invalid pagination; otherwise the paged statement under the request's
    filters, the early answer for an empty page, and for any other page the
    assembled contacts with the count under the same filters. *)
Definition list_handler (development : bool)
    (run : forall A, Sql A -> Result A) (pool : Pool) (q : Query.t)
  : Response :=
  match effective_limit (Query.limit q), effective_offset (Query.offset q) with
  | Some l, Some o =>
      match run _ (SelectContacts (filters q) l o) with
      | Throw message =>
          {| status := 500;
             body := Failure "Internal server error"
                       (if development then Some message else None) |}
      | Rows [] =>
          {| status := 200;
             body := ContactList []
                       (Pagination.mk 0 (JS.Int l) (JS.Int o) false) |}
      | Rows rows =>
          match run _ (CountContacts (filters q)) with
          | Throw message =>
              {| status := 500;
                 body := Failure "Internal server error"
                           (if development then Some message else None) |}
          | Rows total =>
              {| status := 200;
                 body := ContactList (map (assemble pool) rows)
                           (Pagination.mk total (JS.Int l) (JS.Int o)
                              (o + Z.of_nat (List.length (map (assemble pool) rows))
                               <? total)) |}
          end
      end
  | _, _ =>
      {| status := 400;
         body := Failure "Invalid limit or offset parameters" None |}
  end.

(** The request without its [location] parameter. *)
Definition drop_location (q : Query.t) : Query.t :=
  Query.mk (Query.search q) None (Query.province q) (Query.state q)
    (Query.category q) (Query.limit q) (Query.offset q).

(** What a list handler owes on pagination: with an effective limit [l] and
    offset [o], [l] is within [1,1000], [o] is at least 0 and a list answer
    reports [l]; when [o] is a safe integer the handler sends no paged
    statement but [LIMIT l OFFSET o] (refusing every other one changes
    nothing) and a list answer reports [o]; a request whose limit or
    offset has no effective value is answered 400. *)
Definition pagination_contract
    (handler : bool -> Pool -> Query.t -> Response) : Prop :=
  forall development pool q,
    match effective_limit (Query.limit q),
          effective_offset (Query.offset q) with
    | Some l, Some o =>
        1 <= l <= 1000 /\ 0 <= o
        /\ (forall data p,
              body (handler development pool q) = ContactList data p ->
              Pagination.limit p = JS.Int l)
        /\ (o <= JS.MAX_SAFE_INTEGER ->
            handler development pool q
            = handler development (only_page l o pool) q
            /\ (forall data p,
                  body (handler development pool q) = ContactList data p ->
                  Pagination.offset p = JS.Int o))
    | _, _ =>
        handler development pool q
        = {| status := 400;
             body := Failure "Invalid limit or offset parameters" None |}
    end.

(** The resolver's body over a list of [(table, key)] candidates. *)
Fixpoint resolve (pool : Pool) (candidates : list (Table * Z))
  : Result string :=
  match candidates with
  | [] => Rows "Unknown"
  | (t, id) :: rest => lookup_then pool t id (resolve pool rest)
  end.

(** The candidates of a call, in the order of the body. *)
Definition candidates
    (locationId mkCatId mdCatId muasCatId nrtCatId
     fieldCatId medicalCatId serviceCatId : Z) : list (Table * Z) :=
  map (fun t => (t, key_of locationId mkCatId mdCatId muasCatId nrtCatId
                      fieldCatId medicalCatId serviceCatId t))
      tables.

(** The lookup of [id] in [t] brings back no row (it is empty or it fails). *)
Definition no_row (pool : Pool) (t : Table) (id : Z) : Prop :=
  forall label rest,
    execute pool (SelectLabelById t id) <> Rows (label :: rest).

(* ================================================================== *)
(** * Code beside the request handlers *)
(* ================================================================== *)

(** [safeParseInt] of [server.ts]: the parsed value, or the default when
    the text is absent, empty or not a number. *)
Definition safeParseInt (value : option string) (defaultValue : JS.num)
  : JS.num :=
  match value with
  | None => defaultValue
  | Some s =>
      if negb (JS.truthy s) then defaultValue
      else
        let parsed := JS.parseInt10 s in
        if JS.isNaN parsed then defaultValue else parsed
  end.




Module Health.
(** The body of [/api/health]; an absent key is [None]. *)
Record t : Type := mk {
  success : bool;
  message : string;
  database : option string;
  error : option string;
  timestamp : string
}.
End Health.

Module Startup.






End Startup.


(* ================================================================== *)
(** * Vocabulary of the further properties *)
(* ================================================================== *)

(** The filter predicate of the older list handler: no trimming, no
    location conjunct. *)
Definition legacy_filters (q : Query.t) : list Cond :=
  ((if present (Query.search q)
    then [NameOrPhoneLike (wrap (text (Query.search q)))] else [])
   ++ (if present (Query.province q)
       then [ProvinceLike (wrap (text (Query.province q)))] else [])
   ++ (if present (Query.state q)
       then [StateLike (wrap (text (Query.state q)))] else []))%list.

(** The request with its four text filters trimmed. *)
Definition trim_params (q : Query.t) : Query.t :=
  Query.mk (option_map JS.trim (Query.search q))
    (option_map JS.trim (Query.location q))
    (option_map JS.trim (Query.province q))
    (option_map JS.trim (Query.state q))
    (Query.category q) (Query.limit q) (Query.offset q).

(** The same pool, failing every label lookup whose id is not positive. *)
Definition refusing_nonpositive (pool : Pool) : Pool :=
  {| execute := fun A q =>
       match q in Sql T return Result T -> Result T with
       | SelectLabelById _ id =>
           fun r => if 0 <? id then r else Throw "non-positive id"
       | _ => fun r => r
       end (execute pool q);
     query := @query pool |}.

(** The store's keys are keys: no two records share a [record_id], no two
    provinces a [province_id], no two states a [state_id]. *)
Definition keys_unique (db : Db) : Prop :=
  NoDup (map record_id (phone_record db))
  /\ NoDup (map fst (province_info db))
  /\ NoDup (map fst (state_info db)).

(** A text column that [||] passes over: NULL or [""]. *)
Definition falsy (v : option string) : Prop :=
  v = None \/ v = Some "".

(** What every contact sent to a client satisfies. *)
Definition well_formed (c : Contact.t) : Prop :=
  Contact.name c <> ""
  /\ Contact.category c = Contact.location c
  /\ Contact.whatsapp c = formatWhatsAppNumber (Contact.phone c)
  /\ (Contact.phone c = "" -> Contact.whatsapp c = "")
  /\ (Contact.phone c <> "" ->
      all_digits (Contact.whatsapp c) = true
      /\ JS.startsWith (Contact.whatsapp c) "234" = true).


(** The labels of a locations answer. *)
Definition labels_of (r : Response) : list string :=
  match body r with Labels l => l | _ => [] end.

(** [a] comes before [b], or is [b], in code-unit order. *)
Definition string_le (a b : string) : Prop := String.leb a b = true.

(** The contacts of a list answer. *)
Definition data_of (r : Response) : list Contact.t :=
  match body r with ContactList d _ => d | _ => [] end.

(** The same request with [offset] set to [o]. *)
Definition with_offset (q : Query.t) (o : Z) : Query.t :=
  Query.mk (Query.search q) (Query.location q) (Query.province q)
    (Query.state q) (Query.category q) (Query.limit q)
    (Some (JS.toString o)).

(* ================================================================== *)
(** * Phone normalisation: proofs *)
(* ================================================================== *)

Lemma prefix_empty (s : string) : prefix "" s = true.
Proof. destruct s; reflexivity. Qed.

Lemma strip_non_digits_filter (p : string) :
  JS.strip_non_digits p
  = string_of_list_ascii (filter JS.is_digit (list_ascii_of_string p)).
Proof.
  induction p as [|c r IH]; simpl; [reflexivity|].
  destruct (JS.is_digit c); simpl; now rewrite IH.
Qed.

Lemma all_digits_strip (p : string) :
  all_digits (JS.strip_non_digits p) = true.
Proof.
  induction p as [|c r IH]; simpl; [reflexivity|].
  destruct (JS.is_digit c) eqn:E; simpl; [rewrite E|]; exact IH.
Qed.

Lemma all_digits_tail (s : string) :
  all_digits s = true -> all_digits (JS.substring1 s) = true.
Proof.
  destruct s as [|c r]; simpl; [reflexivity|].
  intros H. apply andb_true_iff in H. tauto.
Qed.

Lemma startsWith_234_prepended (s : string) :
  JS.startsWith ("234" ++ s) "234" = true.
Proof. unfold JS.startsWith. simpl. apply prefix_empty. Qed.

Lemma formatWhatsAppNumber_digits (p : string) :
  all_digits (formatWhatsAppNumber p) = true.
Proof.
  unfold formatWhatsAppNumber.
  pose proof (all_digits_strip p) as D.
  destruct (JS.truthy p); simpl; [|reflexivity].
  destruct (JS.startsWith (JS.strip_non_digits p) "0").
  - simpl. now apply all_digits_tail.
  - destruct (JS.startsWith (JS.strip_non_digits p) "234"); simpl; exact D.
Qed.

Lemma formatWhatsAppNumber_prefix (p : string) :
  p <> "" -> JS.startsWith (formatWhatsAppNumber p) "234" = true.
Proof.
  intros Hp. unfold formatWhatsAppNumber.
  destruct p as [|c r]; [congruence|]. cbn [JS.truthy negb].
  destruct (JS.startsWith (JS.strip_non_digits (String c r)) "0").
  - apply startsWith_234_prepended.
  - destruct (JS.startsWith (JS.strip_non_digits (String c r)) "234") eqn:E;
      cbn [negb].
    + exact E.
    + apply startsWith_234_prepended.
Qed.

Lemma formatWhatsAppNumber_refines (p : string) :
  formatWhatsAppNumber p = whatsapp_spec p.
Proof.
  unfold formatWhatsAppNumber, whatsapp_spec, JS.startsWith.
  destruct p as [|c0 r0]; [reflexivity|]. cbn [JS.truthy negb].
  rewrite <- strip_non_digits_filter.
  destruct (JS.strip_non_digits (String c0 r0)) as [|c r]; [reflexivity|].
  destruct c as [[] [] [] [] [] [] [] []];
    try (cbn; rewrite ?prefix_empty; reflexivity);
    try (cbn; destruct (prefix "34" r); reflexivity).
Qed.

(** C4. For every phone string [p], [formatWhatsAppNumber] strips the
    non-digits and then replaces a leading "0" by "234", or prepends "234"
    unless the cleaned string already starts with it (the behaviour written
    out in [whatsapp_spec]); the empty string is sent to itself; for every
    non-empty [p] the result contains only digits and starts with "234"; the
    three sample numbers all normalise to "2348031234567".  The function is
    total: it is a plain function from strings to strings. *)
Theorem formatWhatsAppNumber_correct :
  (forall p, formatWhatsAppNumber p = whatsapp_spec p)
  /\ formatWhatsAppNumber "" = ""
  /\ (forall p, p <> "" ->
        all_digits (formatWhatsAppNumber p) = true
        /\ JS.startsWith (formatWhatsAppNumber p) "234" = true)
  /\ formatWhatsAppNumber "08031234567" = "2348031234567"
  /\ formatWhatsAppNumber "2348031234567" = "2348031234567"
  /\ formatWhatsAppNumber "8031234567" = "2348031234567".
Proof.
  split; [exact formatWhatsAppNumber_refines|].
  split; [reflexivity|].
  split; [|repeat split; reflexivity].
  intros p Hp. split.
  - apply formatWhatsAppNumber_digits.
  - now apply formatWhatsAppNumber_prefix.
Qed.

(** The guarantee for non-empty input, at a number written with
    punctuation and at a string without any digit. *)
Lemma formatWhatsAppNumber_correct_witness :
  ("+234 (803) 123-4567" <> ""
   /\ all_digits (formatWhatsAppNumber "+234 (803) 123-4567") = true
   /\ JS.startsWith (formatWhatsAppNumber "+234 (803) 123-4567") "234" = true)
  /\ formatWhatsAppNumber "n/a" = "234".
Proof.
  split; [|reflexivity].
  split; [discriminate|].
  apply (proj1 (proj2 (proj2 formatWhatsAppNumber_correct))).
  discriminate.
Defined.

(* ================================================================== *)
(** * Category resolution: proofs *)
(* ================================================================== *)

Section Resolver.

Variable pool : Pool.

Lemma lookup_then_skip t id rest :
  (0 < id -> execute pool (SelectLabelById t id) = Rows []) ->
  lookup_then pool t id rest = rest.
Proof.
  intros H. unfold lookup_then.
  destruct (0 <? id) eqn:E; [|reflexivity].
  apply Z.ltb_lt in E. now rewrite (H E).
Qed.

Lemma lookup_then_hit t id label more rest :
  0 < id ->
  execute pool (SelectLabelById t id) = Rows (label :: more) ->
  lookup_then pool t id rest = Rows label.
Proof.
  intros Hpos H. unfold lookup_then.
  apply Z.ltb_lt in Hpos. now rewrite Hpos, H.
Qed.

Lemma lookup_then_throw t id e rest :
  0 < id ->
  execute pool (SelectLabelById t id) = Throw e ->
  lookup_then pool t id rest = Throw e.
Proof.
  intros Hpos H. unfold lookup_then.
  apply Z.ltb_lt in Hpos. now rewrite Hpos, H.
Qed.

(** Without a row for the key, a block either hands over to the rest of
    the body or leaves the [try] with the error. *)
Lemma lookup_then_no_row t id rest :
  (0 < id -> no_row pool t id) ->
  lookup_then pool t id rest = rest
  \/ exists e, lookup_then pool t id rest = Throw e.
Proof.
  intros H. unfold lookup_then.
  destruct (0 <? id) eqn:E; [|now left].
  apply Z.ltb_lt in E. specialize (H E). unfold no_row in H.
  destruct (execute pool (SelectLabelById t id)) as [[|label more]|e].
  - now left.
  - now elim (H label more).
  - right. now exists e.
Qed.

Lemma resolve_no_row cs :
  Forall (fun c => 0 < snd c -> no_row pool (fst c) (snd c)) cs ->
  resolve pool cs = Rows "Unknown" \/ exists e, resolve pool cs = Throw e.
Proof.
  induction 1 as [|[t id] cs Hc _ IH]; simpl; [now left|].
  destruct (lookup_then_no_row t id (resolve pool cs) Hc) as [-> | [e ->]].
  - exact IH.
  - right. now exists e.
Qed.

Lemma getLocationName_try_resolve a b c d e f g h :
  getLocationName_try pool a b c d e f g h
  = resolve pool (candidates a b c d e f g h).
Proof. reflexivity. Qed.

End Resolver.

Lemma resolve_first_match pool a b c d e f g h t label more :
  0 < key_of a b c d e f g h t ->
  execute pool (SelectLabelById t (key_of a b c d e f g h t))
  = Rows (label :: more) ->
  (forall t', (priority t' < priority t)%nat ->
     0 < key_of a b c d e f g h t' ->
     execute pool (SelectLabelById t' (key_of a b c d e f g h t')) = Rows []) ->
  getLocationName_try pool a b c d e f g h = Rows label.
Proof.
  intros Hpos Hrow Hearlier. unfold getLocationName_try.
  destruct t; simpl in Hpos, Hrow;
    repeat first
      [ erewrite lookup_then_hit by eassumption; reflexivity
      | rewrite lookup_then_skip;
        [| intro Hk;
           match goal with
           | |- execute _ (SelectLabelById ?u _) = _ =>
               apply (Hearlier u); [simpl; lia | exact Hk]
           end ] ].
Qed.

Lemma resolve_first_error pool a b c d e f g h t err :
  0 < key_of a b c d e f g h t ->
  execute pool (SelectLabelById t (key_of a b c d e f g h t)) = Throw err ->
  (forall t', (priority t' < priority t)%nat ->
     0 < key_of a b c d e f g h t' ->
     execute pool (SelectLabelById t' (key_of a b c d e f g h t')) = Rows []) ->
  getLocationName_try pool a b c d e f g h = Throw err.
Proof.
  intros Hpos Hrow Hearlier. unfold getLocationName_try.
  destruct t; simpl in Hpos, Hrow;
    repeat first
      [ erewrite lookup_then_throw by eassumption; reflexivity
      | rewrite lookup_then_skip;
        [| intro Hk;
           match goal with
           | |- execute _ (SelectLabelById ?u _) = _ =>
               apply (Hearlier u); [simpl; lia | exact Hk]
           end ] ].
Qed.

(** C2, as the code has it.  If none of the eight keys is strictly positive
    the resolver returns "Unknown"; and if no strictly positive key has a
    row in its table -- the first one and every later one alike -- the
    resolver returns "Unknown".  (A first positive key without a row does
    not settle the answer: the later keys are still tried.) *)
Theorem getLocationName_unknown :
  forall pool a b c d e f g h,
    ((forall t, key_of a b c d e f g h t <= 0) ->
     getLocationName pool a b c d e f g h = "Unknown")
    /\ ((forall t, 0 < key_of a b c d e f g h t ->
                   no_row pool t (key_of a b c d e f g h t)) ->
        getLocationName pool a b c d e f g h = "Unknown").
Proof.
  intros pool a b c d e f g h.
  assert (G : (forall t, 0 < key_of a b c d e f g h t ->
                         no_row pool t (key_of a b c d e f g h t)) ->
              getLocationName pool a b c d e f g h = "Unknown").
  { intros H. unfold getLocationName.
    rewrite getLocationName_try_resolve.
    destruct (resolve_no_row pool (candidates a b c d e f g h)) as [-> | [x ->]];
      try reflexivity.
    unfold candidates. apply Forall_forall. intros [t id] Hin.
    apply in_map_iff in Hin. destruct Hin as [u [Hu _]].
    inversion Hu; subst. simpl. apply H. }
  split; [|exact G].
  intros Hnone. apply G. intros t Ht. specialize (Hnone t). lia.
Qed.

(** Both halves on the sample store: all keys zero, and keys 9, 0, 6 whose
    tables hold no such row. *)
Lemma getLocationName_unknown_witness :
  getLocationName sample_pool 0 0 0 0 0 0 0 0 = "Unknown"
  /\ getLocationName sample_pool 9 0 6 0 0 0 0 0 = "Unknown".
Proof.
  split.
  - apply (proj1 (getLocationName_unknown sample_pool 0 0 0 0 0 0 0 0)).
    intros t. destruct t; simpl; lia.
  - apply (proj2 (getLocationName_unknown sample_pool 9 0 6 0 0 0 0 0)).
    intros t Ht label rest.
    destruct t; simpl in Ht; try lia; vm_compute; discriminate.
Defined.

(** C2 as stated fails: key 9 is the first positive key and the location
    table has no row 9, yet the answer is the label of the next key. *)
Lemma first_positive_key_without_row_not_unknown :
  0 < key_of 9 5 7 0 0 0 0 0 location
  /\ execute sample_pool (SelectLabelById location 9) = Rows []
  /\ getLocationName sample_pool 9 5 7 0 0 0 0 0 = "Makkah Five"
  /\ getLocationName sample_pool 9 5 7 0 0 0 0 0 <> "Unknown".
Proof. repeat split; try reflexivity. vm_compute. discriminate. Qed.

(** C3, as the code has it.  The keys are tried in the order location, mk,
    md, muas, nrt, field, medical, service; the answer is the label of the
    first key that is strictly positive and has a row, every earlier
    positive key having been looked up and found without one; later keys
    play no part.  So with location_id = 0, mk = 5, md = 7 and a row 5 in the
    mk table, the answer is that row's label whatever the other keys and
    tables hold. *)
Theorem getLocationName_first_match :
  (forall pool a b c d e f g h t label more,
      0 < key_of a b c d e f g h t ->
      execute pool (SelectLabelById t (key_of a b c d e f g h t))
      = Rows (label :: more) ->
      (forall t', (priority t' < priority t)%nat ->
         0 < key_of a b c d e f g h t' ->
         execute pool (SelectLabelById t' (key_of a b c d e f g h t'))
         = Rows []) ->
      getLocationName pool a b c d e f g h = label)
  /\ (forall pool muas nrt field medical service label more,
        execute pool (SelectLabelById mk_cat_info 5) = Rows (label :: more) ->
        getLocationName pool 0 5 7 muas nrt field medical service = label).
Proof.
  assert (G : forall pool a b c d e f g h t label more,
      0 < key_of a b c d e f g h t ->
      execute pool (SelectLabelById t (key_of a b c d e f g h t))
      = Rows (label :: more) ->
      (forall t', (priority t' < priority t)%nat ->
         0 < key_of a b c d e f g h t' ->
         execute pool (SelectLabelById t' (key_of a b c d e f g h t'))
         = Rows []) ->
      getLocationName pool a b c d e f g h = label).
  { intros. unfold getLocationName.
    now erewrite resolve_first_match by eassumption. }
  split; [exact G|].
  intros pool muas nrt field medical service label more Hrow.
  apply (G pool 0 5 7 muas nrt field medical service mk_cat_info label more).
  - simpl. lia.
  - exact Hrow.
  - intros t' Hlt Hpos. destruct t'; simpl in Hlt, Hpos; lia.
Qed.

(** On the sample store: keys 9, 5, 7 (no location 9, so mk decides), and
    the keys 0, 5, 7 of the specification's example. *)
Lemma getLocationName_first_match_witness :
  getLocationName sample_pool 9 5 7 0 0 0 0 0 = "Makkah Five"
  /\ getLocationName sample_pool 0 5 7 0 0 0 0 0 = "Makkah Five".
Proof.
  split.
  - apply (proj1 getLocationName_first_match
             sample_pool 9 5 7 0 0 0 0 0 mk_cat_info "Makkah Five" []).
    + simpl. lia.
    + reflexivity.
    + intros t' Hlt Hpos. destruct t'; simpl in Hlt; try lia. reflexivity.
  - apply (proj2 getLocationName_first_match
             sample_pool 0 0 0 0 0 "Makkah Five" []).
    reflexivity.
Defined.

(** C3 as stated fails: with location_id = 0, mk = 5, md = 7 on a store
    whose mk table has no row 5, the answer is the md table's label. *)
Lemma mk_without_row_yields_md_label :
  execute (pool_of like_binary db_without_mk) (SelectLabelById mk_cat_info 5)
  = Rows []
  /\ execute (pool_of like_binary db_without_mk) (SelectLabelById md_cat_info 7)
     = Rows ["Madinah Seven"]
  /\ getLocationName (pool_of like_binary db_without_mk) 0 5 7 0 0 0 0 0
     = "Madinah Seven".
Proof. repeat split; reflexivity. Qed.

(** C8, as the code has it.  One [try] encloses all eight lookups: an error
    raised by the lookup of a key is caught and makes the resolver return
    "Unknown" at once, whatever the later keys would have found; no error
    reaches the caller. *)
Theorem getLocationName_absorbs_errors :
  (forall pool a b c d e f g h err,
      getLocationName_try pool a b c d e f g h = Throw err ->
      getLocationName pool a b c d e f g h = "Unknown")
  /\ (forall pool a b c d e f g h t err,
        0 < key_of a b c d e f g h t ->
        execute pool (SelectLabelById t (key_of a b c d e f g h t))
        = Throw err ->
        (forall t', (priority t' < priority t)%nat ->
           0 < key_of a b c d e f g h t' ->
           execute pool (SelectLabelById t' (key_of a b c d e f g h t'))
           = Rows []) ->
        getLocationName pool a b c d e f g h = "Unknown").
Proof.
  split.
  - intros pool a b c d e f g h err H. unfold getLocationName. now rewrite H.
  - intros pool a b c d e f g h t err Hpos Herr Hearlier.
    unfold getLocationName.
    now erewrite resolve_first_error by eassumption.
Qed.

(** On the sample store with [md_cat_info] unreadable: key 9 finds no
    location, key 7 fails. *)
Lemma getLocationName_absorbs_errors_witness :
  getLocationName (without_table md_cat_info sample_pool) 9 0 7 0 0 0 0 0
  = "Unknown".
Proof.
  apply (proj2 getLocationName_absorbs_errors
           (without_table md_cat_info sample_pool) 9 0 7 0 0 0 0 0
           md_cat_info "table unavailable").
  - simpl. lia.
  - reflexivity.
  - intros t' Hlt Hpos. destruct t'; simpl in Hlt, Hpos; try lia. reflexivity.
Defined.

(** C8 as stated fails: the lookup of the first key fails, the next
    candidate (mk = 5) has a row, and the answer is "Unknown", not that
    row's label. *)
Lemma lookup_error_ends_resolution :
  execute (without_table location sample_pool) (SelectLabelById location 3)
  = Throw "table unavailable"
  /\ execute (without_table location sample_pool) (SelectLabelById mk_cat_info 5)
     = Rows ["Makkah Five"]
  /\ getLocationName (without_table location sample_pool) 3 5 0 0 0 0 0 0
     = "Unknown"
  /\ getLocationName (without_table location sample_pool) 3 5 0 0 0 0 0 0
     <> "Makkah Five".
Proof. repeat split; try reflexivity. vm_compute. discriminate. Qed.

(* ================================================================== *)
(** * The list endpoints: proofs *)
(* ================================================================== *)

Lemma limit_expression (p : option string) :
  match p with
  | Some limitParam =>
      if JS.truthy limitParam
      then JS.Math_max 1 (JS.Math_min 1000 (JS.parseInt10 limitParam))
      else JS.Int 50
  | None => JS.Int 50
  end = num_of (effective_limit p).
Proof.
  destruct p as [[|c s]|]; try reflexivity.
  unfold effective_limit. cbn [JS.truthy].
  now destruct (JS.parseInt10 (String c s)).
Qed.

Lemma offset_expression (p : option string) :
  match p with
  | Some offsetParam =>
      if JS.truthy offsetParam
      then JS.Math_max 0 (JS.parseInt10 offsetParam)
      else JS.Int 0
  | None => JS.Int 0
  end = num_of (effective_offset p).
Proof.
  destruct p as [[|c s]|]; try reflexivity.
  unfold effective_offset. cbn [JS.truthy].
  now destruct (JS.parseInt10 (String c s)).
Qed.

(** Either handler is [list_handler] over the pool method it calls. *)
Lemma contacts_unfold development pool q :
  Server.contacts development pool q
  = list_handler development (@execute pool) pool q.
Proof.
  unfold Server.contacts, list_handler, filters.
  rewrite limit_expression, offset_expression.
  destruct (effective_limit (Query.limit q)) as [l|];
    [|reflexivity].
  destruct (effective_offset (Query.offset q)) as [o|];
    [|reflexivity].
  cbn [num_of].
  destruct (given (Query.search q)), (given (Query.province q)),
    (given (Query.state q)), (given (Query.location q));
    reflexivity.
Qed.

Lemma contacts_alt_unfold development pool q :
  Server.contacts_alt development pool q
  = list_handler development (@query pool) pool q.
Proof.
  unfold Server.contacts_alt, list_handler, filters.
  rewrite limit_expression, offset_expression.
  destruct (effective_limit (Query.limit q)) as [l|];
    [|reflexivity].
  destruct (effective_offset (Query.offset q)) as [o|];
    [|reflexivity].
  cbn [num_of].
  destruct (given (Query.search q)), (given (Query.province q)),
    (given (Query.state q)), (given (Query.location q));
    reflexivity.
Qed.

Lemma effective_limit_range p l :
  effective_limit p = Some l -> 1 <= l <= 1000.
Proof.
  unfold effective_limit.
  destruct p as [[|c s]|]; try (intros [= <-]; lia).
  destruct (JS.parseInt10 (String c s)); [discriminate|].
  intros [= <-]. lia.
Qed.

Lemma effective_offset_range p o :
  effective_offset p = Some o -> 0 <= o.
Proof.
  unfold effective_offset.
  destruct p as [[|c s]|]; try (intros [= <-]; lia).
  destruct (JS.parseInt10 (String c s)); [discriminate|].
  intros [= <-]. lia.
Qed.

(** C10. When [pool.execute] and [pool.query] answer the paged statement
    and the count statement alike, [GET /api/contacts] and
    [GET /api/contacts-alt] give the same status and the same body, for
    every request, every pool and either environment. *)
Theorem contacts_alt_same_response :
  forall development pool q,
    (forall w l o,
        execute pool (SelectContacts w l o) = query pool (SelectContacts w l o)) ->
    (forall w, execute pool (CountContacts w) = query pool (CountContacts w)) ->
    Server.contacts development pool q
    = Server.contacts_alt development pool q.
Proof.
  intros development pool q Hlist Hcount.
  rewrite contacts_unfold, contacts_alt_unfold.
  unfold list_handler.
  destruct (effective_limit (Query.limit q)) as [l|]; [|reflexivity].
  destruct (effective_offset (Query.offset q)) as [o|]; [|reflexivity].
  fold (execute pool (SelectContacts (filters q) l o)).
  fold (execute pool (CountContacts (filters q))).
  now rewrite Hlist, Hcount.
Qed.

(** On the sample store, for a filtered second page of size one. *)
Lemma contacts_alt_same_response_witness :
  Server.contacts true sample_pool
    (Query.mk (Some "a") None None None None (Some "1") (Some "1"))
  = Server.contacts_alt true sample_pool
      (Query.mk (Some "a") None None None None (Some "1") (Some "1")).
Proof.
  apply contacts_alt_same_response; reflexivity.
Defined.

Lemma list_handler_only_page development pool q l o :
  effective_limit (Query.limit q) = Some l ->
  effective_offset (Query.offset q) = Some o ->
  list_handler development (@execute (only_page l o pool))
    (only_page l o pool) q
  = list_handler development (@execute pool) pool q
  /\ list_handler development (@query (only_page l o pool))
       (only_page l o pool) q
     = list_handler development (@query pool) pool q.
Proof.
  intros Hl Ho. unfold list_handler. rewrite Hl, Ho.
  cbn [only_page execute query]. rewrite !Z.eqb_refl. cbn [andb].
  split; reflexivity.
Qed.

Lemma list_handler_reports development run pool q l o data p :
  effective_limit (Query.limit q) = Some l ->
  effective_offset (Query.offset q) = Some o ->
  body (list_handler development run pool q) = ContactList data p ->
  Pagination.limit p = JS.Int l /\ Pagination.offset p = JS.Int o.
Proof.
  intros Hl Ho. unfold list_handler. rewrite Hl, Ho.
  destruct (run _ (SelectContacts (filters q) l o)) as [[|r rows]|m];
    cbn [body].
  - intros [= <- <-]. now split.
  - destruct (run _ (CountContacts (filters q))); cbn [body];
      [intros [= <- <-]; now split | discriminate].
  - discriminate.
Qed.

Lemma list_handler_rejects development run pool q :
  effective_limit (Query.limit q) = None
  \/ effective_offset (Query.offset q) = None ->
  list_handler development run pool q
  = {| status := 400;
       body := Failure "Invalid limit or offset parameters" None |}.
Proof.
  unfold list_handler.
  intros [-> | ->]; [reflexivity|].
  now destruct (effective_limit (Query.limit q)).
Qed.

(** X17. Pagination in [server.ts].  The effective limit is 50 when
    the parameter is absent and the parsed value clamped into [1,1000]
    otherwise; the effective offset is 0 when absent and the parsed value
    clamped to at least 0 otherwise, without an upper bound; a parameter
    that does not parse is rejected with a 400.  Both list endpoints
    report the clamped limit, so [limit=0] and [limit=-5] become 1 and a
    non-numeric limit is refused; for an offset that is a safe integer (at
    most 2^53 - 1, read exactly and written out digit for digit) they send
    exactly these bounds to the store and report the offset. *)
Theorem contacts_pagination_clamped :
  pagination_contract Server.contacts
  /\ pagination_contract Server.contacts_alt
  /\ effective_limit None = Some 50
  /\ effective_offset None = Some 0
  /\ (forall s n, s <> "" -> JS.parseInt10 s = JS.Int n ->
        effective_limit (Some s) = Some (Z.max 1 (Z.min 1000 n))
        /\ (n <= JS.MAX_SAFE_INTEGER ->
            effective_offset (Some s) = Some (Z.max 0 n)))
  /\ effective_limit (Some "0") = Some 1
  /\ effective_limit (Some "-5") = Some 1
  /\ effective_limit (Some "5000") = Some 1000
  /\ effective_limit (Some "abc") = None
  /\ effective_offset (Some "-3") = Some 0
  /\ effective_offset (Some "abc") = None.
Proof.
  split; [|split].
  - intros development pool q.
    destruct (effective_limit (Query.limit q)) as [l|] eqn:Hl;
      [destruct (effective_offset (Query.offset q)) as [o|] eqn:Ho|].
    + split; [eapply effective_limit_range; eassumption|].
      split; [eapply effective_offset_range; eassumption|].
      rewrite !contacts_unfold. split; [|intros _; split].
      * intros data p Hb.
        apply (list_handler_reports _ _ _ _ _ _ _ _ Hl Ho Hb).
      * symmetry. now apply list_handler_only_page.
      * intros data p Hb.
        apply (list_handler_reports _ _ _ _ _ _ _ _ Hl Ho Hb).
    + rewrite contacts_unfold. apply list_handler_rejects. now right.
    + rewrite contacts_unfold. apply list_handler_rejects. now left.
  - intros development pool q.
    destruct (effective_limit (Query.limit q)) as [l|] eqn:Hl;
      [destruct (effective_offset (Query.offset q)) as [o|] eqn:Ho|].
    + split; [eapply effective_limit_range; eassumption|].
      split; [eapply effective_offset_range; eassumption|].
      rewrite !contacts_alt_unfold. split; [|intros _; split].
      * intros data p Hb.
        apply (list_handler_reports _ _ _ _ _ _ _ _ Hl Ho Hb).
      * symmetry. now apply list_handler_only_page.
      * intros data p Hb.
        apply (list_handler_reports _ _ _ _ _ _ _ _ Hl Ho Hb).
    + rewrite contacts_alt_unfold. apply list_handler_rejects. now right.
    + rewrite contacts_alt_unfold. apply list_handler_rejects. now left.
  - repeat split; try reflexivity; try intros _;
      match goal with
      | Hs : ?s <> "", Hp : JS.parseInt10 ?s = _ |- _ =>
          destruct s as [|c s']; [congruence|];
          unfold effective_limit, effective_offset; now rewrite Hp
      end.
Qed.

(** The clamp at a concrete parameter: [limit=2500abc] parses to 2500 and
    is clamped to 1000, [offset=-7] to 0. *)
Lemma contacts_pagination_clamped_witness :
  effective_limit (Some "2500abc") = Some 1000
  /\ effective_offset (Some "-7") = Some 0.
Proof.
  destruct contacts_pagination_clamped as (_ & _ & _ & _ & H & _).
  split.
  - apply (proj1 (H "2500abc" 2500 ltac:(discriminate) eq_refl)).
  - apply (proj2 (H "-7" (-7) ltac:(discriminate) eq_refl)).
    unfold JS.MAX_SAFE_INTEGER. lia.
Defined.

(* ================================================================== *)
(** * The list endpoints on a reachable store *)
(* ================================================================== *)

Lemma In_firstn_skipn {A : Type} (x : A) n m (l : list A) :
  In x (firstn n (skipn m l)) -> In x l.
Proof.
  intros H.
  rewrite <- (firstn_skipn m l). apply in_or_app. right.
  rewrite <- (firstn_skipn n (skipn m l)). apply in_or_app. now left.
Qed.

Lemma firstn_skipn_nil {A : Type} n m (l : list A) :
  (0 < n)%nat -> firstn n (skipn m l) = [] -> (List.length l <= m)%nat.
Proof.
  intros Hn H. apply skipn_all_iff.
  destruct n as [|n]; [lia|].
  destruct (skipn m l); [reflexivity | discriminate].
Qed.

Section OnStore.

Variable like : string -> string -> bool.
Variable db : Db.

Lemma page_in_range l o rows :
  1 <= l -> 0 <= o ->
  page l o rows = Rows (firstn (Z.to_nat l) (skipn (Z.to_nat o) rows)).
Proof.
  intros Hl Ho. unfold page.
  destruct (l <? 0) eqn:E1; [apply Z.ltb_lt in E1; lia|].
  destruct (o <? 0) eqn:E2; [apply Z.ltb_lt in E2; lia|].
  reflexivity.
Qed.

(** The answer of either list endpoint on the store, for a request with
    valid pagination. *)
Lemma list_handler_on_store development q l o :
  effective_limit (Query.limit q) = Some l ->
  effective_offset (Query.offset q) = Some o ->
  list_handler development (run like db) (pool_of like db) q
  = match firstn (Z.to_nat l) (skipn (Z.to_nat o)
                                 (matching like db (filters q))) with
    | [] =>
        {| status := 200;
           body := ContactList []
                     (Pagination.mk 0 (JS.Int l) (JS.Int o) false) |}
    | rows =>
        {| status := 200;
           body :=
             ContactList (map (assemble (pool_of like db)) rows)
               (Pagination.mk
                  (Z.of_nat (List.length (matching like db (filters q))))
                  (JS.Int l) (JS.Int o)
                  (o + Z.of_nat (List.length rows)
                   <? Z.of_nat (List.length (matching like db (filters q))))) |}
    end.
Proof.
  intros Hl Ho. unfold list_handler. rewrite Hl, Ho.
  cbn [run].
  rewrite page_in_range
    by (first [ apply (effective_limit_range _ _ Hl)
              | apply (effective_offset_range _ _ Ho) ]).
  destruct (firstn _ _) as [|r rows]; [reflexivity|].
  now rewrite length_map.
Qed.

(** Every row that satisfies a location conjunct carries the id of the
    first location whose name matches the pattern. *)
Lemma matching_location w pat r :
  In (LocationIdIsFirstLike pat) w ->
  In r (matching like db w) ->
  In r (joined db)
  /\ exists id, first_location_like like db pat = Some id
                /\ location_id (pr r) = Some id.
Proof.
  intros Hw Hr. unfold matching in Hr.
  apply filter_In in Hr. destruct Hr as [Hin Hall]. split; [exact Hin|].
  rewrite forallb_forall in Hall. specialize (Hall _ Hw).
  cbn [eval_cond] in Hall.
  destruct (location_id (pr r)) as [a|]; [|discriminate].
  destruct (first_location_like like db pat) as [b|]; [|discriminate].
  apply Z.eqb_eq in Hall. subst. now exists b.
Qed.

Lemma filters_location q :
  given (Query.location q) = true ->
  In (LocationIdIsFirstLike (wrap (JS.trim (text (Query.location q)))))
     (filters q).
Proof.
  intros H. unfold filters. rewrite H.
  apply in_or_app. right. apply in_or_app. right.
  apply in_or_app. right. now left.
Qed.

Lemma matching_no_location q :
  given (Query.location q) = true ->
  first_location_like like db
    (wrap (JS.trim (text (Query.location q)))) = None ->
  matching like db (filters q) = [].
Proof.
  intros Hg Hnone.
  destruct (matching like db (filters q)) as [|r rows] eqn:E; [reflexivity|].
  destruct (matching_location (filters q) _ r (filters_location q Hg))
    as [_ [id [Hid _]]].
  - rewrite E. now left.
  - congruence.
Qed.

End OnStore.

(** X19. The list answers of [server.ts] on a reachable store: the page is at
    most [limit] long; [hasMore] says whether rows remain after the page;
    a non-empty page reports the number of all matching rows as [total];
    the empty page reports 0. *)
Lemma contacts_page_sound like db development q data p :
  Server.contacts development (pool_of like db) q
  = {| status := 200; body := ContactList data p |} ->
  exists l o,
    effective_limit (Query.limit q) = Some l
    /\ effective_offset (Query.offset q) = Some o
    /\ Z.of_nat (List.length data) <= l
    /\ (Pagination.hasMore p = true <->
        o + Z.of_nat (List.length data)
        < Z.of_nat (List.length (matching like db (filters q))))
    /\ (data <> [] ->
        Pagination.total p
        = Z.of_nat (List.length (matching like db (filters q))))
    /\ (data = [] -> Pagination.total p = 0).
Proof.
  rewrite contacts_unfold.
  destruct (effective_limit (Query.limit q)) as [l|] eqn:Hl;
    [destruct (effective_offset (Query.offset q)) as [o|] eqn:Ho|].
  2, 3: rewrite list_handler_rejects by (now (left + right));
        discriminate.
  pose proof (effective_limit_range _ _ Hl) as Rl.
  pose proof (effective_offset_range _ _ Ho) as Ro.
  change (@execute (pool_of like db)) with (run like db).
  rewrite (list_handler_on_store like db development q l o Hl Ho).
  destruct (firstn _ _) as [|r rows] eqn:E.
  - intros [= <- <-]. exists l, o. cbn.
    repeat split; try congruence; try lia.
    apply firstn_skipn_nil in E; lia.
  - intros [= <- <-]. exists l, o.
    cbn [Pagination.hasMore Pagination.total].
    pose proof (firstn_le_length (Z.to_nat l)
                  (skipn (Z.to_nat o) (matching like db (filters q)))) as Hle.
    rewrite E in Hle.
    change (assemble (pool_of like db) r
            :: map (assemble (pool_of like db)) rows)
      with (map (assemble (pool_of like db)) (r :: rows)).
    rewrite length_map.
    split; [reflexivity|]. split; [reflexivity|].
    split; [lia|]. split; [apply Z.ltb_lt|].
    split; [reflexivity | discriminate].
Qed.

(** The empty page beyond the last row: the early return answers
    [total: 0] although rows match. *)
Lemma contacts_past_the_end like db development q l o :
  effective_limit (Query.limit q) = Some l ->
  effective_offset (Query.offset q) = Some o ->
  Z.of_nat (List.length (matching like db (filters q))) <= o ->
  Server.contacts development (pool_of like db) q
  = {| status := 200;
       body := ContactList []
                 (Pagination.mk 0 (JS.Int l) (JS.Int o) false) |}.
Proof.
  intros Hl Ho Hpast. rewrite contacts_unfold.
  change (@execute (pool_of like db)) with (run like db).
  rewrite (list_handler_on_store like db development q l o Hl Ho).
  rewrite skipn_all2 by lia. now rewrite firstn_nil.
Qed.

(** C1 at a concrete request: [GET /api/contacts?offset=2] on the sample
    store.  Two rows match the (empty) filter, the page after them is
    empty, and the answer says [total: 0]; the older handler of
    [part_000], which always runs the count, says [total: 2]. *)
Lemma contacts_empty_page_total_zero :
  List.length (matching like_binary sample_db
                 (filters (Query.mk None None None None None None (Some "2"))))
  = 2%nat
  /\ Server.contacts false sample_pool
       (Query.mk None None None None None None (Some "2"))
     = {| status := 200;
          body := ContactList []
                    (Pagination.mk 0 (JS.Int 50) (JS.Int 2) false) |}
  /\ Server.contacts_alt false sample_pool
       (Query.mk None None None None None None (Some "2"))
     = {| status := 200;
          body := ContactList []
                    (Pagination.mk 0 (JS.Int 50) (JS.Int 2) false) |}
  /\ Legacy.contacts false sample_pool
       (Query.mk None None None None None None (Some "2"))
     = {| status := 200;
          body := ContactList []
                    (Pagination.mk 2 (JS.Int 50) (JS.Int 2) false) |}.
Proof. repeat split; reflexivity. Qed.

Lemma filters_split q :
  given (Query.location q) = true ->
  filters q
  = (filters (drop_location q)
     ++ [LocationIdIsFirstLike (wrap (JS.trim (text (Query.location q))))])%list.
Proof.
  intros H. unfold filters, drop_location. cbn [Query.search Query.province
    Query.state Query.location given]. rewrite H.
  now rewrite app_nil_r, !app_assoc.
Qed.

(** With a location conjunct, the rows that qualify are those that qualify
    without it and carry the id of the first matching location. *)
Lemma matching_with_location like db q r :
  given (Query.location q) = true ->
  In r (matching like db (filters q))
  <-> In r (matching like db (filters (drop_location q)))
      /\ exists id,
          first_location_like like db
            (wrap (JS.trim (text (Query.location q)))) = Some id
          /\ location_id (pr r) = Some id.
Proof.
  intros Hg. rewrite (filters_split q Hg). unfold matching.
  rewrite !filter_In, forallb_app. cbn [forallb eval_cond].
  rewrite andb_true_r, andb_true_iff.
  split.
  - intros [Hin [Hothers Hloc]]. split; [now split|].
    destruct (location_id (pr r)) as [a|]; [|discriminate].
    destruct (first_location_like like db _) as [b|]; [|discriminate].
    apply Z.eqb_eq in Hloc. subst. now exists b.
  - intros [[Hin Hothers] [id [-> ->]]].
    repeat split; try assumption. apply Z.eqb_refl.
Qed.

(** The location filter of both list handlers of [server.ts] on a
    reachable store.  When the [location] parameter is non-empty after
    trimming and the pagination is valid, with an offset that is a safe
    integer, the answer lists the page of the qualifying rows, and a row
    qualifies exactly when it passes the other filters and its
    [location_id] equals the id of the first row of the [location] table
    whose name is LIKE the trimmed parameter between two [%]; when no
    location matches, no row qualifies at all: the filter is not
    dropped. *)
Theorem contacts_location_filter :
  forall like db development q l o,
    given (Query.location q) = true ->
    effective_limit (Query.limit q) = Some l ->
    effective_offset (Query.offset q) = Some o ->
    o <= JS.MAX_SAFE_INTEGER ->
    (exists p,
        Server.contacts development (pool_of like db) q
        = {| status := 200;
             body := ContactList
                       (map (assemble (pool_of like db))
                          (firstn (Z.to_nat l)
                             (skipn (Z.to_nat o)
                                (matching like db (filters q)))))
                       p |}
        /\ Server.contacts_alt development (pool_of like db) q
           = Server.contacts development (pool_of like db) q)
    /\ (forall r,
          In r (matching like db (filters q))
          <-> In r (matching like db (filters (drop_location q)))
              /\ exists id,
                  first_location_like like db
                    (wrap (JS.trim (text (Query.location q)))) = Some id
                  /\ location_id (pr r) = Some id)
    /\ (first_location_like like db
          (wrap (JS.trim (text (Query.location q)))) = None ->
        matching like db (filters q) = []).
Proof.
  intros like db development q l o Hg Hl Ho _.
  split; [|split].
  - rewrite contacts_unfold, contacts_alt_unfold.
    change (@execute (pool_of like db)) with (run like db).
    change (@query (pool_of like db)) with (run like db).
    rewrite (list_handler_on_store like db development q l o Hl Ho).
    destruct (firstn _ _) as [|r0 rows0]; eexists; split; reflexivity.
  - intros r. now apply matching_with_location.
  - now apply matching_no_location.
Qed.

(** [?location=%20Hub%20] on the sample store: the first location LIKE
    [%Hub%] is row 3, and the one record with [location_id = 3] is
    listed. *)
Lemma contacts_location_filter_witness :
  first_location_like like_binary sample_db "%Hub%" = Some 3
  /\ matching like_binary sample_db
       (filters (Query.mk None (Some " Hub ") None None None None None))
     = [ {| pr := john; province := Some "Lagos";
            state_name := Some "Lagos State" |} ]
  /\ exists p,
       Server.contacts false sample_pool
         (Query.mk None (Some " Hub ") None None None None None)
       = {| status := 200;
            body := ContactList
                      [assemble sample_pool
                         {| pr := john; province := Some "Lagos";
                            state_name := Some "Lagos State" |}]
                      p |}.
Proof.
  split; [reflexivity|]. split; [reflexivity|].
  destruct (contacts_location_filter like_binary sample_db false
              (Query.mk None (Some " Hub ") None None None None None)
              50 0 eq_refl eq_refl eq_refl
              ltac:(unfold JS.MAX_SAFE_INTEGER; lia)) as [[p [Hp _]] _].
  exists p. exact Hp.
Defined.

(** A parameter that is blank is no filter in [server.ts]:
    [?location=%20%20] is empty after trimming and is treated as absent,
    so every record is listed. *)
Lemma blank_location_is_no_filter :
  "  " <> ""
  /\ first_location_like like_binary sample_db (wrap "  ") = None
  /\ given (Some "  ") = false
  /\ Server.contacts false sample_pool
       (Query.mk None (Some "  ") None None None None None)
     = {| status := 200;
          body := ContactList
                    (map (assemble sample_pool) (joined sample_db))
                    (Pagination.mk 2 (JS.Int 50) (JS.Int 0) false) |}.
Proof. repeat split; try reflexivity. discriminate. Qed.

(** A location that matches nothing empties the answer. *)
Lemma contacts_unknown_location_example :
  Server.contacts false sample_pool
    (Query.mk None (Some "Nowhere") None None None None None)
  = {| status := 200;
       body := ContactList []
                 (Pagination.mk 0 (JS.Int 50) (JS.Int 0) false) |}.
Proof. reflexivity. Qed.

(** The older handler of [part_000] never reads [location]. *)
Lemma legacy_contacts_ignores_location development pool s loc loc' pv st c li o :
  Legacy.contacts development pool (Query.mk s loc pv st c li o)
  = Legacy.contacts development pool (Query.mk s loc' pv st c li o).
Proof. reflexivity. Qed.

(** C6 at a concrete request to the older handler of [part_000]:
    [GET /api/contacts?location=Nowhere] on the sample store.  No location
    name contains "Nowhere", so the filter cannot be satisfied; the older
    handler never reads the parameter and lists both records with
    [total: 2], as it does without any parameter, where both handlers of
    [server.ts] list none. *)
Lemma legacy_contacts_location_unfiltered :
  first_location_like like_binary sample_db "%Nowhere%" = None
  /\ Legacy.contacts false sample_pool
       (Query.mk None (Some "Nowhere") None None None None None)
     = {| status := 200;
          body := ContactList
                    (map (assemble sample_pool) (joined sample_db))
                    (Pagination.mk 2 (JS.Int 50) (JS.Int 0) false) |}
  /\ Legacy.contacts false sample_pool
       (Query.mk None (Some "Nowhere") None None None None None)
     = Legacy.contacts false sample_pool no_query
  /\ List.length (joined sample_db) = 2%nat
  /\ Server.contacts false sample_pool
       (Query.mk None (Some "Nowhere") None None None None None)
     = {| status := 200;
          body := ContactList []
                    (Pagination.mk 0 (JS.Int 50) (JS.Int 0) false) |}
  /\ Server.contacts_alt false sample_pool
       (Query.mk None (Some "Nowhere") None None None None None)
     = {| status := 200;
          body := ContactList []
                    (Pagination.mk 0 (JS.Int 50) (JS.Int 0) false) |}.
Proof. repeat split; reflexivity. Qed.

(** C5 at two concrete requests to the older handler of [part_000]:
    [?limit=5000] and [?limit=0] reach the store and the answer as they
    are, where the handlers of [server.ts] send 1000 and 1. *)
Lemma legacy_contacts_unclamped :
  Legacy.contacts false sample_pool
    (Query.mk None None None None None (Some "5000") None)
  = {| status := 200;
       body := ContactList
                 (map (assemble sample_pool) (joined sample_db))
                 (Pagination.mk 2 (JS.Int 5000) (JS.Int 0) false) |}
  /\ Legacy.contacts false sample_pool
       (Query.mk None None None None None (Some "0") None)
     = {| status := 200;
          body := ContactList []
                    (Pagination.mk 2 (JS.Int 0) (JS.Int 0) true) |}
  /\ effective_limit (Some "5000") = Some 1000
  /\ effective_limit (Some "0") = Some 1.
Proof. repeat split; reflexivity. Qed.

(** A negative or unreadable limit is bound as it is; the reference store
    refuses the statement and the answer is a 500. *)
Lemma legacy_contacts_bad_limit :
  status (Legacy.contacts false sample_pool
            (Query.mk None None None None None (Some "-5") None)) = 500
  /\ status (Legacy.contacts false sample_pool
               (Query.mk None None None None None (Some "abc") None)) = 500.
Proof. split; reflexivity. Qed.

(* ================================================================== *)
(** * Get contact by id: proofs *)
(* ================================================================== *)

Lemma left_join_inhabited tbl key : left_join tbl key <> [].
Proof.
  unfold left_join. destruct key as [k|]; [|discriminate].
  destruct (filter _ tbl); discriminate.
Qed.

Lemma joined_pr db row : In row (joined db) -> In (pr row) (phone_record db).
Proof.
  unfold joined. intros H.
  apply in_flat_map in H. destruct H as [r [Hr H]].
  apply in_flat_map in H. destruct H as [p [_ H]].
  apply in_map_iff in H. destruct H as [s [<- _]]. exact Hr.
Qed.

Lemma joined_complete db r :
  In r (phone_record db) -> exists row, In row (joined db) /\ pr row = r.
Proof.
  intros Hr.
  destruct (left_join (province_info db) (province_id r)) as [|p ps] eqn:Ep;
    [now apply left_join_inhabited in Ep|].
  destruct (left_join (state_info db) (state_id r)) as [|s ss] eqn:Es;
    [now apply left_join_inhabited in Es|].
  exists (Build_Row r p s). split; [|reflexivity].
  unfold joined. apply in_flat_map. exists r. split; [exact Hr|].
  apply in_flat_map. exists p. split; [rewrite Ep; now left|].
  apply in_map_iff. exists s. split; [reflexivity|]. rewrite Es. now left.
Qed.

(** The handler's answer, by the outcome of its one statement. *)
Lemma contact_by_id_cases pool id n :
  JS.parseInt10 id = JS.Int n ->
  Server.contact_by_id pool id
  = match execute pool (SelectContactById n) with
    | Throw _ =>
        {| status := 500; body := Failure "Internal server error" None |}
    | Rows [] =>
        {| status := 404; body := Failure "Contact not found" None |}
    | Rows (row :: _) =>
        {| status := 200; body := ContactItem (assemble pool row) |}
    end.
Proof.
  intros H. unfold Server.contact_by_id. rewrite H.
  destruct (execute pool (SelectContactById n)) as [[|row rows]|e];
    reflexivity.
Qed.

(** What [parseInt(id, 10)] takes for a number: after leading white space
    and one optional sign, the text starts with a digit. *)
Lemma parseInt10_examples :
  JS.parseInt10 "abc" = JS.NaN
  /\ JS.parseInt10 "" = JS.NaN
  /\ JS.parseInt10 "-" = JS.NaN
  /\ JS.parseInt10 "42" = JS.Int 42
  /\ JS.parseInt10 " -7" = JS.Int (-7)
  /\ JS.parseInt10 "12abc" = JS.Int 12.
Proof. repeat split; reflexivity. Qed.

(** What the get-by-id handler of [server.ts] does.  An id from which
    [parseInt(id, 10)] reads no number (no digit after the leading white
    space and an optional sign) is answered 400 before the store is
    consulted, so whatever the pool does the answer is not a 5xx; an id that
    reads as a safe integer [n], whatever follows the digits, is answered
    404 when the reachable store holds no record [n], and with the
    assembled contact of record [n] when it holds one. *)
Theorem contact_by_id_statuses :
  (forall pool id,
      JS.parseInt10 id = JS.NaN ->
      Server.contact_by_id pool id
      = {| status := 400; body := Failure "Invalid contact ID" None |})
  /\ (forall like db id n,
        JS.parseInt10 id = JS.Int n ->
        Z.abs n <= JS.MAX_SAFE_INTEGER ->
        (forall r, In r (phone_record db) -> record_id r <> n) ->
        Server.contact_by_id (pool_of like db) id
        = {| status := 404; body := Failure "Contact not found" None |})
  /\ (forall like db id n,
        JS.parseInt10 id = JS.Int n ->
        Z.abs n <= JS.MAX_SAFE_INTEGER ->
        (exists r, In r (phone_record db) /\ record_id r = n) ->
        exists row,
          In row (joined db) /\ record_id (pr row) = n
          /\ Server.contact_by_id (pool_of like db) id
             = {| status := 200;
                  body := ContactItem (assemble (pool_of like db) row) |}).
Proof.
  split; [|split].
  - intros pool id H. unfold Server.contact_by_id. now rewrite H.
  - intros like db id n H _ Hnone.
    rewrite (contact_by_id_cases _ _ _ H). cbn [pool_of execute run].
    destruct (filter _ (joined db)) as [|row rows] eqn:E; [reflexivity|].
    assert (Hin : In row (filter (fun r => record_id (pr r) =? n) (joined db)))
      by (rewrite E; now left).
    apply filter_In in Hin. destruct Hin as [Hin Hid].
    apply Z.eqb_eq in Hid. apply joined_pr in Hin.
    now elim (Hnone _ Hin).
  - intros like db id n H _ [r [Hr Hid]].
    rewrite (contact_by_id_cases _ _ _ H). cbn [pool_of execute run].
    destruct (joined_complete db r Hr) as [row0 [Hrow0 Hpr]].
    assert (Hin0 : In row0 (filter (fun r => record_id (pr r) =? n) (joined db))).
    { apply filter_In. split; [exact Hrow0|].
      rewrite Hpr. now apply Z.eqb_eq. }
    destruct (filter _ (joined db)) as [|row rows] eqn:E; [now elim Hin0|].
    assert (Hin : In row (filter (fun r => record_id (pr r) =? n) (joined db)))
      by (rewrite E; now left).
    apply filter_In in Hin. destruct Hin as [Hin Hrid].
    apply Z.eqb_eq in Hrid.
    exists row. now repeat split.
Qed.

(** [/api/contacts/abc] on a pool that cannot read anything useful,
    [/api/contacts/77] and [/api/contacts/12] on the sample store. *)
Lemma contact_by_id_statuses_witness :
  Server.contact_by_id (without_table location sample_pool) "abc"
  = {| status := 400; body := Failure "Invalid contact ID" None |}
  /\ Server.contact_by_id sample_pool "77"
     = {| status := 404; body := Failure "Contact not found" None |}
  /\ exists row,
       In row (joined sample_db) /\ record_id (pr row) = 12
       /\ Server.contact_by_id sample_pool "12"
          = {| status := 200;
               body := ContactItem (assemble sample_pool row) |}.
Proof.
  destruct contact_by_id_statuses as (H400 & H404 & H200).
  split; [|split].
  - apply H400. reflexivity.
  - apply (H404 like_binary sample_db "77" 77);
      [reflexivity | unfold JS.MAX_SAFE_INTEGER; lia |].
    intros r [<- | [<- | []]]; discriminate.
  - apply (H200 like_binary sample_db "12" 12);
      [reflexivity | unfold JS.MAX_SAFE_INTEGER; lia |].
    exists ada. split; [right; now left | reflexivity].
Defined.

(** The older handler of [part_000] answers what the store answers for
    the text of the id, whatever that text is: it has no answer of its
    own for an id that is not a number. *)
Lemma legacy_contact_by_id_cases pool by_text id :
  Legacy.contact_by_id pool by_text id
  = match by_text id with
    | Throw _ =>
        {| status := 500; body := Failure "Internal server error" None |}
    | Rows [] =>
        {| status := 404; body := Failure "Contact not found" None |}
    | Rows (row :: _) =>
        {| status := 200; body := ContactItem (assemble pool row) |}
    end.
Proof.
  unfold Legacy.contact_by_id.
  destruct (by_text id) as [[|row rows]|e]; reflexivity.
Qed.

(** C7 at concrete requests.  In [server.ts] the check under "Validate ID
    is a number" is [parseInt] and [isNaN], which pass every text that
    starts with an integer: [/api/contacts/12abc] is not a number, is read
    as 12 and is answered 200 with record 12, exactly as [/api/contacts/12]
    is.  The older handler of [part_000] has no check at all and sends the
    text to the store: with the store out of reach [/api/contacts/abc] is
    answered 500 there, where [server.ts] answers 400. *)
Lemma id_with_trailing_text_is_served :
  all_digits "12abc" = false
  /\ JS.parseInt10 "12abc" = JS.Int 12
  /\ Server.contact_by_id sample_pool "12abc"
     = {| status := 200;
          body := ContactItem
                    (assemble sample_pool
                       {| pr := ada; province := None; state_name := None |}) |}
  /\ Server.contact_by_id sample_pool "12abc"
     = Server.contact_by_id sample_pool "12"
  /\ JS.parseInt10 "abc" = JS.NaN
  /\ Legacy.contact_by_id unreachable
       (fun _ => Throw "connect ECONNREFUSED") "abc"
     = {| status := 500; body := Failure "Internal server error" None |}
  /\ Server.contact_by_id unreachable "abc"
     = {| status := 400; body := Failure "Invalid contact ID" None |}.
Proof. repeat split; reflexivity. Qed.

(* ================================================================== *)
(** * List locations: proofs *)
(* ================================================================== *)

Lemma Table_eqb_eq a b : Table_eqb a b = true -> a = b.
Proof. destruct a, b; simpl; congruence. Qed.

Lemma In_tables t : In t tables.
Proof. destruct t; simpl; tauto. Qed.

Section Locations.

Variable pool : Pool.
Variable t : Table.
Variable err : string.
Hypothesis Hfail : execute pool (SelectLabels t) = Throw err.

(** Reading one table: the failing pool and the pool with [t] empty leave
    the same labels. *)
Lemma read_table_with_empty st st' u :
  snd st = snd st' ->
  snd (Server.read_table pool st u)
  = snd (Server.read_table (with_empty_table t pool) st' u).
Proof.
  intros Heq. unfold Server.read_table. cbn [with_empty_table execute].
  destruct (Table_eqb t u) eqn:E.
  - apply Table_eqb_eq in E. subst u. rewrite Hfail. exact Heq.
  - destruct (execute pool (SelectLabels u)); cbn [snd]; now rewrite Heq.
Qed.

Lemma read_tables_with_empty ts : forall st st',
  snd st = snd st' ->
  snd (fold_left (Server.read_table pool) ts st)
  = snd (fold_left (Server.read_table (with_empty_table t pool)) ts st').
Proof.
  induction ts as [|u ts IH]; intros st st' Heq; [exact Heq|].
  cbn [fold_left]. apply IH. now apply read_table_with_empty.
Qed.

Lemma warnings_kept ts w : forall st,
  In w (fst st) -> In w (fst (fold_left (Server.read_table pool) ts st)).
Proof.
  induction ts as [|u ts IH]; intros st Hin; [exact Hin|].
  cbn [fold_left]. apply IH. unfold Server.read_table.
  destruct (execute pool (SelectLabels u)); cbn [fst]; [exact Hin|].
  unfold push. apply in_or_app. now left.
Qed.

Lemma warning_written ts : forall st,
  In t ts ->
  In ("Error fetching from " ++ table_name t ++ ":")
     (fst (fold_left (Server.read_table pool) ts st)).
Proof.
  induction ts as [|u ts IH]; intros st Hin; [now elim Hin|].
  cbn [fold_left]. destruct Hin as [-> | Hin]; [|now apply IH].
  apply warnings_kept. unfold Server.read_table. rewrite Hfail.
  cbn [fst]. unfold push. apply in_or_app. right. now left.
Qed.

(** In the older copy the first failing table ends the loop. *)
Lemma legacy_read_tables_throw ts : forall st,
  In t ts ->
  exists e, fold_left (Legacy.read_table pool) ts st = Throw e.
Proof.
  assert (Stuck : forall us e,
             fold_left (Legacy.read_table pool) us (Throw e) = Throw e)
    by (induction us as [|u us IH]; intros e; [reflexivity | apply IH]).
  induction ts as [|u ts IH]; intros st Hin; [now elim Hin|].
  cbn [fold_left]. destruct Hin as [-> | Hin]; [|now apply IH].
  unfold Legacy.read_table at 2. destruct st as [locations|e].
  - rewrite Hfail. exists err. apply Stuck.
  - exists e. apply Stuck.
Qed.

End Locations.

(** X18. Locations in [server.ts].  The locations endpoint always
    answers 200 with a list of labels.  When the statement on one table
    fails, a warning naming that table is written and the answer is the one
    the endpoint would give were that table empty: the labels gathered from
    the other tables, whatever becomes of them. *)
Theorem locations_survives_table_failure :
  forall pool,
    (exists labels,
        snd (Server.locations pool) = {| status := 200; body := Labels labels |})
    /\ (forall t err,
          execute pool (SelectLabels t) = Throw err ->
          In ("Error fetching from " ++ table_name t ++ ":")
             (fst (Server.locations pool))
          /\ snd (Server.locations pool)
             = snd (Server.locations (with_empty_table t pool))).
Proof.
  intros pool. split.
  - eexists. reflexivity.
  - intros t err Hfail. split.
    + unfold Server.locations. cbn [fst].
      eapply warning_written; [exact Hfail | apply In_tables].
    + unfold Server.locations. cbn [snd].
      now rewrite (read_tables_with_empty pool t err Hfail tables
                     ([], []) ([], []) eq_refl).
Qed.

(** The sample store with [md_cat_info] unreadable: one warning, and the
    labels of the seven other tables. *)
Lemma locations_survives_table_failure_witness :
  In "Error fetching from md_cat_info:"
     (fst (Server.locations (without_table md_cat_info sample_pool)))
  /\ snd (Server.locations (without_table md_cat_info sample_pool))
     = {| status := 200;
          body := Labels ["Abuja Hub"; "Lagos Hub"; "Makkah Five"] |}.
Proof.
  destruct (proj2 (locations_survives_table_failure
                     (without_table md_cat_info sample_pool))
              md_cat_info "table unavailable" eq_refl) as [Hwarn Hsame].
  split; [exact Hwarn|]. rewrite Hsame. reflexivity.
Defined.

(** X20. The older locations handler of [part_000] has no inner [try]:
    one failing table, whichever it is, turns the whole answer into a 500
    without any label. *)
Lemma legacy_locations_fatal pool t err :
  execute pool (SelectLabels t) = Throw err ->
  Legacy.locations pool
  = {| status := 500; body := Failure "Internal server error" None |}.
Proof.
  intros Hfail. unfold Legacy.locations.
  destruct (legacy_read_tables_throw pool t err Hfail tables (Rows [])
              (In_tables t)) as [e ->].
  reflexivity.
Qed.

(** C9 at a concrete store: with [md_cat_info] unreadable the older handler
    of [part_000] answers 500 and no label at all, where the handler of
    [server.ts] warns and lists the labels of the other tables. *)
Lemma legacy_locations_fatal_example :
  Legacy.locations (without_table md_cat_info sample_pool)
  = {| status := 500; body := Failure "Internal server error" None |}
  /\ Server.locations (without_table md_cat_info sample_pool)
     = (["Error fetching from md_cat_info:"],
        {| status := 200;
           body := Labels ["Abuja Hub"; "Lagos Hub"; "Makkah Five"] |}).
Proof. split; reflexivity. Qed.

(* ================================================================== *)
(** * Phone normalisation: further properties *)
(* ================================================================== *)

Lemma strip_all_digits (s : string) :
  all_digits s = true -> JS.strip_non_digits s = s.
Proof.
  induction s as [|c r IH]; simpl; [reflexivity|].
  intros H. apply andb_true_iff in H. destruct H as [Hc Hr].
  rewrite Hc. now rewrite IH.
Qed.

Lemma strip_idempotent (s : string) :
  JS.strip_non_digits (JS.strip_non_digits s) = JS.strip_non_digits s.
Proof. apply strip_all_digits, all_digits_strip. Qed.

Lemma prefix_234_shape (s : string) :
  prefix "234" s = true -> exists r, s = "234" ++ r.
Proof.
  intros H.
  destruct s as [|a [|b [|c r]]]; simpl in H; try discriminate;
    repeat match type of H with
           | (if ?d then _ else _) = true => destruct d; [subst|discriminate]
           end; try discriminate.
  now exists r.
Qed.

(** X1. Normalising twice is normalising once: the result of
    [formatWhatsAppNumber] is a fixed point of it. *)
Theorem formatWhatsAppNumber_idempotent :
  forall p,
    formatWhatsAppNumber (formatWhatsAppNumber p) = formatWhatsAppNumber p.
Proof.
  intros p. destruct p as [|c0 r0]; [reflexivity|].
  pose proof (formatWhatsAppNumber_digits (String c0 r0)) as D.
  pose proof (formatWhatsAppNumber_prefix (String c0 r0)) as P.
  specialize (P ltac:(discriminate)).
  destruct (prefix_234_shape _ P) as [r Hr].
  rewrite Hr in *. unfold formatWhatsAppNumber at 1.
  cbn [JS.truthy append negb].
  change (String "2" (String "3" (String "4" r))) with ("234" ++ r).
  rewrite (strip_all_digits _ D). rewrite P. reflexivity.
Qed.

(** X2. Only the digits of the input matter: an input with at least one
    digit normalises like its digits alone, whatever punctuation, spaces or
    letters surround them; a non-empty input without any digit normalises
    to the bare prefix "234". *)
Theorem formatWhatsAppNumber_digits_only_matter :
  forall p,
    (JS.strip_non_digits p <> "" ->
     formatWhatsAppNumber p = formatWhatsAppNumber (JS.strip_non_digits p))
    /\ (p <> "" -> JS.strip_non_digits p = "" ->
        formatWhatsAppNumber p = "234").
Proof.
  intros p. split.
  - intros Hd. unfold formatWhatsAppNumber. rewrite strip_idempotent.
    destruct p as [|c r]; [now elim Hd|].
    destruct (JS.strip_non_digits (String c r)) as [|c' r'] eqn:E;
      [now elim Hd|].
    reflexivity.
  - intros Hp Hd. unfold formatWhatsAppNumber. rewrite Hd.
    destruct p; [now elim Hp | reflexivity].
Qed.

(** An international number written with a plus sign, brackets and
    dashes; and a placeholder without digits. *)
Lemma formatWhatsAppNumber_digits_only_matter_witness :
  formatWhatsAppNumber "+234 (803) 123-4567"
  = formatWhatsAppNumber "2348031234567"
  /\ formatWhatsAppNumber "n/a" = "234".
Proof.
  split.
  - apply (proj1 (formatWhatsAppNumber_digits_only_matter
                    "+234 (803) 123-4567")).
    discriminate.
  - apply (proj2 (formatWhatsAppNumber_digits_only_matter "n/a"));
      [discriminate | reflexivity].
Defined.

(** X3. One subscriber number [d] (digits, not starting with "0" or
    "234") has one normal form, "234" followed by [d], whether it is
    written bare, with the trunk "0" in front, or already with "234". *)
Theorem formatWhatsAppNumber_canonical :
  forall d,
    all_digits d = true ->
    JS.startsWith d "0" = false ->
    JS.startsWith d "234" = false ->
    formatWhatsAppNumber ("0" ++ d) = "234" ++ d
    /\ formatWhatsAppNumber ("234" ++ d) = "234" ++ d
    /\ (d <> "" -> formatWhatsAppNumber d = "234" ++ d).
Proof.
  intros d Hd H0 H234. split; [|split].
  - unfold formatWhatsAppNumber. cbn [append JS.truthy negb].
    change (String "0" d) with ("0" ++ d).
    assert (D : all_digits ("0" ++ d) = true) by (simpl; exact Hd).
    rewrite (strip_all_digits _ D).
    unfold JS.startsWith. simpl. now rewrite prefix_empty.
  - unfold formatWhatsAppNumber. cbn [append JS.truthy negb].
    change (String "2" (String "3" (String "4" d))) with ("234" ++ d).
    assert (D : all_digits ("234" ++ d) = true) by (simpl; exact Hd).
    rewrite (strip_all_digits _ D).
    rewrite startsWith_234_prepended. reflexivity.
  - intros Hne. unfold formatWhatsAppNumber.
    destruct d as [|c r]; [now elim Hne|]. cbn [JS.truthy negb].
    rewrite (strip_all_digits _ Hd). now rewrite H0, H234.
Qed.

(** The three spellings of 803 123 4567. *)
Lemma formatWhatsAppNumber_canonical_witness :
  formatWhatsAppNumber "08031234567" = "2348031234567"
  /\ formatWhatsAppNumber "2348031234567" = "2348031234567"
  /\ formatWhatsAppNumber "8031234567" = "2348031234567".
Proof.
  destruct (formatWhatsAppNumber_canonical "8031234567"
              eq_refl eq_refl eq_refl) as (A & B & C).
  split; [exact A|]. split; [exact B|]. apply C. discriminate.
Defined.

(* ================================================================== *)
(** * [safeParseInt] *)
(* ================================================================== *)

(** X4. With a numeric default, [safeParseInt] never yields [NaN]: it
    yields the number [parseInt(value, 10)] reads when [value] is present,
    non-empty and readable, and the default in every other case.  On every
    limit the list handlers accept, their inline parsing agrees with it:
    the effective limit is [safeParseInt(limit, 50)] clamped into
    [1,1000]; the two differ only on an unreadable limit, which the
    handlers reject and [safeParseInt] would replace by the default. *)
Theorem safeParseInt_total :
  forall value d,
    (exists n,
        safeParseInt value (JS.Int d) = JS.Int n
        /\ ((exists s, value = Some s /\ s <> "" /\ JS.parseInt10 s = JS.Int n)
            \/ (n = d
                /\ (value = None \/ value = Some ""
                    \/ exists s, value = Some s /\ JS.parseInt10 s = JS.NaN))))
    /\ (forall l, effective_limit value = Some l ->
          exists n, safeParseInt value (JS.Int 50) = JS.Int n
                    /\ l = Z.max 1 (Z.min 1000 n)).
Proof.
  intros value d. split.
  - destruct value as [[|c s]|].
    + exists d. split; [reflexivity|]. right. split; [reflexivity|].
      right. now left.
    + unfold safeParseInt. cbn [JS.truthy negb].
      destruct (JS.parseInt10 (String c s)) as [|n] eqn:E; cbn [JS.isNaN].
      * exists d. split; [reflexivity|]. right. split; [reflexivity|].
        right. right. now exists (String c s).
      * exists n. split; [reflexivity|]. left.
        exists (String c s). repeat split; [discriminate | exact E].
    + exists d. split; [reflexivity|]. right. split; [reflexivity|]. now left.
  - intros l. unfold effective_limit, safeParseInt.
    destruct value as [[|c s]|]; try (intros [= <-]; now exists 50).
    cbn [JS.truthy negb].
    destruct (JS.parseInt10 (String c s)) as [|n]; [discriminate|].
    intros [= <-]. now exists n.
Qed.

(** [safeParseInt("25px", 50)] is 25, [safeParseInt("px", 50)] is 50, and
    the handlers' limit for [limit=2500] is 1000. *)
Lemma safeParseInt_total_witness :
  safeParseInt (Some "25px") (JS.Int 50) = JS.Int 25
  /\ safeParseInt (Some "px") (JS.Int 50) = JS.Int 50
  /\ exists n, safeParseInt (Some "2500") (JS.Int 50) = JS.Int n
               /\ 1000 = Z.max 1 (Z.min 1000 n).
Proof.
  split; [reflexivity|]. split; [reflexivity|].
  exact (proj2 (safeParseInt_total (Some "2500") 50) 1000 eq_refl).
Defined.

(* ================================================================== *)
(** * Contact ids: [toString] and [parseInt] *)
(* ================================================================== *)

Lemma digit_not_space c : JS.is_digit c = true -> JS.is_space c = false.
Proof.
  unfold JS.is_digit, JS.is_space. intros H.
  apply andb_true_iff in H. destruct H as [H1 H2].
  apply Z.leb_le in H1. apply Z.leb_le in H2.
  destruct (JS.code c <=? 13) eqn:E1; [apply Z.leb_le in E1; lia|].
  destruct (JS.code c =? 32) eqn:E2; [apply Z.eqb_eq in E2; lia|].
  destruct (JS.code c =? 160) eqn:E3; [apply Z.eqb_eq in E3; lia|].
  now rewrite andb_false_r.
Qed.

Lemma trimStart_digit s :
  JS.starts_with_digit s = true -> JS.trimStart s = s.
Proof.
  destruct s as [|c r]; [reflexivity|]. cbn [JS.starts_with_digit JS.trimStart].
  intros H. now rewrite (digit_not_space c H).
Qed.

(** A text that starts with a digit is read for the value of its digits. *)
Lemma parseInt10_digits s :
  JS.starts_with_digit s = true ->
  JS.parseInt10 s = JS.Int (JS.digits_value 0 s).
Proof.
  intros H. unfold JS.parseInt10. rewrite (trimStart_digit s H).
  destruct s as [|c r]; [discriminate|].
  destruct c as [[] [] [] [] [] [] [] []];
    try (exfalso; vm_compute in H; discriminate H);
    cbv beta iota zeta; rewrite H, Z.mul_1_l; reflexivity.
Qed.

Lemma parseInt10_minus s :
  JS.starts_with_digit s = true ->
  JS.parseInt10 (String "-" s) = JS.Int (- JS.digits_value 0 s).
Proof.
  intros H. unfold JS.parseInt10.
  change (JS.trimStart (String "-" s)) with (String "-" s).
  cbv beta iota zeta. rewrite H. apply f_equal. lia.
Qed.

Lemma digits_value_uint_acc d : forall acc,
  JS.digits_value (Zpos acc) (NilEmpty.string_of_uint d)
  = Zpos (Pos.of_uint_acc d acc).
Proof.
  induction d; intros acc; cbn [NilEmpty.string_of_uint Pos.of_uint_acc];
    [reflexivity | ..];
    cbn [JS.digits_value];
    match goal with
    | |- context [JS.is_digit ?c] =>
        change (JS.is_digit c) with true; cbv iota;
        let v := eval vm_compute in (JS.digit_value c) in
        change (JS.digit_value c) with v
    end;
    rewrite <- IHd;
    (apply (f_equal2 JS.digits_value); [lia | reflexivity]).
Qed.

Lemma digits_value_uint d :
  JS.digits_value 0 (NilEmpty.string_of_uint d) = Z.of_N (Pos.of_uint d).
Proof.
  induction d; cbn [NilEmpty.string_of_uint Pos.of_uint];
    [reflexivity | ..];
    cbn [JS.digits_value];
    match goal with
    | |- context [JS.is_digit ?c] =>
        change (JS.is_digit c) with true; cbv iota;
        let v := eval vm_compute in (JS.digit_value c) in
        change (JS.digit_value c) with v
    end;
    [exact IHd | ..];
    match goal with
    | |- JS.digits_value ?a _ = _ =>
        let a' := eval vm_compute in a in change a with a'
    end;
    rewrite digits_value_uint_acc; reflexivity.
Qed.

Lemma string_of_uint_starts_with_digit d :
  d <> Decimal.Nil ->
  JS.starts_with_digit (NilEmpty.string_of_uint d) = true.
Proof. destruct d; [congruence | reflexivity ..]. Qed.

Lemma to_uint_not_nil p : Pos.to_uint p <> Decimal.Nil.
Proof.
  intros H. pose proof (DecimalPos.Unsigned.of_to p) as E.
  rewrite H in E. discriminate E.
Qed.

Lemma toString_read_back z : JS.parseInt10 (JS.toString z) = JS.Int z.
Proof.
  unfold JS.toString. destruct z as [|p|p]; [reflexivity | |].
  - cbn [Z.to_int NilEmpty.string_of_int].
    rewrite parseInt10_digits
      by (apply string_of_uint_starts_with_digit, to_uint_not_nil).
    rewrite digits_value_uint, DecimalPos.Unsigned.of_to. reflexivity.
  - cbn [Z.to_int NilEmpty.string_of_int].
    rewrite parseInt10_minus
      by (apply string_of_uint_starts_with_digit, to_uint_not_nil).
    rewrite digits_value_uint, DecimalPos.Unsigned.of_to. reflexivity.
Qed.

(** X5. A record id written out with [toString] is read back by
    [parseInt(_, 10)] as the same integer, negative ids and 0 included;
    the text written is made of digits after an optional minus sign. *)
Theorem parseInt10_toString :
  forall z,
    JS.parseInt10 (JS.toString z) = JS.Int z
    /\ (0 <= z -> all_digits (JS.toString z) = true)
    /\ (z < 0 -> exists s, JS.toString z = String "-" s
                          /\ all_digits s = true).
Proof.
  intros z. split; [apply toString_read_back|].
  assert (D : forall d, all_digits (NilEmpty.string_of_uint d) = true)
    by (induction d; cbn [NilEmpty.string_of_uint all_digits];
        [reflexivity | exact IHd ..]).
  unfold JS.toString. split.
  - destruct z as [|p|p]; [reflexivity | intros _; apply D | lia].
  - destruct z as [|p|p]; try lia. intros _.
    eexists. split; [reflexivity | apply D].
Qed.

(** The ids 12 and -7. *)
Lemma parseInt10_toString_witness :
  JS.parseInt10 (JS.toString 12) = JS.Int 12
  /\ all_digits (JS.toString 12) = true
  /\ exists s, JS.toString (-7) = String "-" s /\ all_digits s = true.
Proof.
  split; [exact (proj1 (parseInt10_toString 12))|].
  split.
  - apply (proj1 (proj2 (parseInt10_toString 12))). lia.
  - apply (proj2 (proj2 (parseInt10_toString (-7)))). lia.
Defined.

(* ================================================================== *)
(** * From the list to one contact *)
(* ================================================================== *)

Lemma NoDup_map_inj {A B : Type} (f : A -> B) (l : list A) x y :
  NoDup (map f l) -> In x l -> In y l -> f x = f y -> x = y.
Proof.
  induction l as [|a l IH]; simpl; intros Hnd Hx Hy Hf; [now elim Hx|].
  inversion Hnd as [|? ? Hnotin Hnd']; subst.
  destruct Hx as [-> | Hx], Hy as [-> | Hy]; try reflexivity.
  - elim Hnotin. rewrite Hf. now apply in_map.
  - elim Hnotin. rewrite <- Hf. now apply in_map.
  - now apply IH.
Qed.

Lemma left_join_unique tbl key a b :
  NoDup (map fst tbl) ->
  In a (left_join tbl key) -> In b (left_join tbl key) -> a = b.
Proof.
  intros Hnd. unfold left_join. destruct key as [k|].
  - destruct (filter (fun r => fst r =? k) tbl) as [|m ms] eqn:E.
    + intros [<- | []] [<- | []]. reflexivity.
    + rewrite <- E. intros Ha Hb.
      apply in_map_iff in Ha. destruct Ha as [x [<- Hx]].
      apply in_map_iff in Hb. destruct Hb as [y [<- Hy]].
      apply filter_In in Hx. destruct Hx as [Hx Kx].
      apply filter_In in Hy. destruct Hy as [Hy Ky].
      apply Z.eqb_eq in Kx. apply Z.eqb_eq in Ky.
      now rewrite (NoDup_map_inj fst tbl x y Hnd Hx Hy) by congruence.
  - intros [<- | []] [<- | []]. reflexivity.
Qed.

Lemma in_joined db row :
  In row (joined db)
  <-> In (pr row) (phone_record db)
      /\ In (province row)
            (left_join (province_info db) (province_id (pr row)))
      /\ In (state_name row)
            (left_join (state_info db) (state_id (pr row))).
Proof.
  unfold joined. rewrite in_flat_map. split.
  - intros [r [Hr H]]. apply in_flat_map in H. destruct H as [p [Hp H]].
    apply in_map_iff in H. destruct H as [s [<- Hs]]. now cbn.
  - intros [Hr [Hp Hs]]. exists (pr row). split; [exact Hr|].
    apply in_flat_map. exists (province row). split; [exact Hp|].
    apply in_map_iff. exists (state_name row). split; [|exact Hs].
    now destruct row.
Qed.

(** With keys that are keys, a record id names one joined row. *)
Lemma joined_row_unique db row row' :
  keys_unique db ->
  In row (joined db) -> In row' (joined db) ->
  record_id (pr row) = record_id (pr row') -> row = row'.
Proof.
  intros (Hrec & Hprov & Hstate) Hin Hin' Hid.
  apply in_joined in Hin. destruct Hin as (Hr & Hp & Hs).
  apply in_joined in Hin'. destruct Hin' as (Hr' & Hp' & Hs').
  pose proof (NoDup_map_inj record_id _ _ _ Hrec Hr Hr' Hid) as E.
  destruct row as [r p s], row' as [r' p' s']. cbn in *. subst r'.
  f_equal.
  - exact (left_join_unique _ _ _ _ Hprov Hp Hp').
  - exact (left_join_unique _ _ _ _ Hstate Hs Hs').
Qed.

Lemma matching_joined like db w r :
  In r (matching like db w) -> In r (joined db).
Proof. unfold matching. intros H. now apply filter_In in H. Qed.

(** The contacts of a list answer are assembled from qualifying rows. *)
Lemma contacts_data_rows like db development q data p :
  Server.contacts development (pool_of like db) q
  = {| status := 200; body := ContactList data p |} ->
  exists rows,
    data = map (assemble (pool_of like db)) rows
    /\ forall r, In r rows -> In r (matching like db (filters q)).
Proof.
  rewrite contacts_unfold.
  destruct (effective_limit (Query.limit q)) as [l|] eqn:Hl;
    [destruct (effective_offset (Query.offset q)) as [o|] eqn:Ho|].
  2, 3: rewrite list_handler_rejects by (now (left + right));
        discriminate.
  change (@execute (pool_of like db)) with (run like db).
  rewrite (list_handler_on_store like db development q l o Hl Ho).
  destruct (firstn _ _) as [|r0 rows0] eqn:E.
  - intros [= <- <-]. exists []. split; [reflexivity | intros r []].
  - intros H. injection H as <- _.
    exists (r0 :: rows0). split; [reflexivity|].
    intros r Hr. rewrite <- E in Hr. now apply In_firstn_skipn in Hr.
Qed.

(** X6. Every contact listed by [GET /api/contacts] on a reachable store
    can be fetched by the id it was listed with: [GET /api/contacts/<id>]
    answers 200 with a contact of that id, and with the very same contact
    when record, province and state ids are unique in their tables. *)
Theorem listed_contact_can_be_fetched :
  forall like db development q data p c,
    Server.contacts development (pool_of like db) q
    = {| status := 200; body := ContactList data p |} ->
    In c data ->
    (exists c',
        Server.contact_by_id (pool_of like db) (Contact.id c)
        = {| status := 200; body := ContactItem c' |}
        /\ Contact.id c' = Contact.id c)
    /\ (keys_unique db ->
        Server.contact_by_id (pool_of like db) (Contact.id c)
        = {| status := 200; body := ContactItem c |}).
Proof.
  intros like db development q data p c Hresp Hc.
  destruct (contacts_data_rows like db development q data p Hresp)
    as [rows [-> Hrows]].
  apply in_map_iff in Hc. destruct Hc as [row [<- Hrow]].
  specialize (Hrows row Hrow). apply matching_joined in Hrows.
  assert (Hcase :
    Server.contact_by_id (pool_of like db)
      (Contact.id (assemble (pool_of like db) row))
    = match filter (fun r => record_id (pr r) =? record_id (pr row))
              (joined db) with
      | [] => {| status := 404; body := Failure "Contact not found" None |}
      | row' :: _ =>
          {| status := 200;
             body := ContactItem (assemble (pool_of like db) row') |}
      end).
  { rewrite (contact_by_id_cases _ _ (record_id (pr row)))
      by (cbn [assemble Contact.id]; apply toString_read_back).
    reflexivity. }
  rewrite Hcase.
  assert (Hin : In row (filter (fun r => record_id (pr r) =? record_id (pr row))
                          (joined db)))
    by (apply filter_In; split; [exact Hrows | apply Z.eqb_refl]).
  destruct (filter _ (joined db)) as [|row' rest] eqn:E; [now elim Hin|].
  assert (Hin' : In row' (filter (fun r => record_id (pr r) =? record_id (pr row))
                            (joined db)))
    by (rewrite E; now left).
  apply filter_In in Hin'. destruct Hin' as [Hjoined' Hid'].
  apply Z.eqb_eq in Hid'. split.
  - eexists. split; [reflexivity|]. cbn [assemble Contact.id]. now rewrite Hid'.
  - intros Huniq.
    now rewrite (joined_row_unique db row' row Huniq Hjoined' Hrows Hid').
Qed.

(** The second contact of the sample store, listed and fetched. *)
Lemma listed_contact_can_be_fetched_witness :
  Server.contact_by_id sample_pool "12"
  = {| status := 200;
       body := ContactItem
                 (assemble sample_pool
                    {| pr := ada; province := None; state_name := None |}) |}.
Proof.
  refine (proj2 (listed_contact_can_be_fetched like_binary sample_db false
                   no_query
                   (map (assemble sample_pool) (joined sample_db))
                   (Pagination.mk 2 (JS.Int 50) (JS.Int 0) false)
                   (assemble sample_pool
                      {| pr := ada; province := None; state_name := None |})
                   eq_refl _) _).
  - right. left. reflexivity.
  - unfold keys_unique. cbn.
    repeat split; repeat constructor; cbn; intuition discriminate.
Defined.

(* ================================================================== *)
(** * Category resolution: further properties *)
(* ================================================================== *)

Lemma resolve_on_store like db cs :
  exists label,
    resolve (pool_of like db) cs = Rows label
    /\ (label = "Unknown"
        \/ exists t id,
            In (t, id) cs /\ 0 < id /\ In (id, label) (label_table db t)).
Proof.
  induction cs as [|[t id] cs IH]; cbn [resolve].
  - exists "Unknown". split; [reflexivity | now left].
  - destruct IH as [l [Hl Hfrom]]. unfold lookup_then.
    destruct (0 <? id) eqn:E.
    + cbn [pool_of execute run].
      destruct (map snd (filter (fun r => fst r =? id) (label_table db t)))
        as [|label more] eqn:F.
      * exists l. split; [exact Hl|].
        destruct Hfrom as [-> | [u [k [Hin H]]]]; [now left|].
        right. exists u, k. split; [now right | exact H].
      * exists label. split; [reflexivity|]. right. exists t, id.
        split; [now left|]. split; [now apply Z.ltb_lt|].
        assert (Hin : In label (map snd (filter (fun r => fst r =? id)
                                           (label_table db t))))
          by (rewrite F; now left).
        apply in_map_iff in Hin. destruct Hin as [[k v] [Hv Hin]].
        apply filter_In in Hin. destruct Hin as [Hin Hk].
        cbn in Hv, Hk. apply Z.eqb_eq in Hk. now subst.
    + exists l. split; [exact Hl|].
      destruct Hfrom as [-> | [u [k [Hin H]]]]; [now left|].
      right. exists u, k. split; [now right | exact H].
Qed.

(** X7. On a reachable store the resolver never invents a label: its
    answer is "Unknown" or the label stored, in one of the eight tables,
    under the strictly positive key the record holds for that table. *)
Theorem getLocationName_label_is_stored :
  forall like db a b c d e f g h,
    getLocationName (pool_of like db) a b c d e f g h = "Unknown"
    \/ exists t,
        0 < key_of a b c d e f g h t
        /\ In (key_of a b c d e f g h t,
               getLocationName (pool_of like db) a b c d e f g h)
              (label_table db t).
Proof.
  intros like db a b c d e f g h. unfold getLocationName.
  rewrite getLocationName_try_resolve.
  destruct (resolve_on_store like db (candidates a b c d e f g h))
    as [label [-> [-> | [t [id [Hin [Hpos Hrow]]]]]]]; [now left|].
  right. exists t. unfold candidates in Hin.
  apply in_map_iff in Hin. destruct Hin as [u [Hu _]].
  inversion Hu; subst. now split.
Qed.

Lemma lookup_then_ext pool pool' t id rest rest' :
  (forall u k, 0 < k ->
     execute pool (SelectLabelById u k) = execute pool' (SelectLabelById u k)) ->
  rest = rest' ->
  lookup_then pool t id rest = lookup_then pool' t id rest'.
Proof.
  intros H ->. unfold lookup_then.
  destruct (0 <? id) eqn:E; [|reflexivity].
  apply Z.ltb_lt in E. now rewrite (H t id E).
Qed.

Lemma lookup_then_max pool t id rest :
  lookup_then pool t id rest = lookup_then pool t (Z.max 0 id) rest.
Proof.
  unfold lookup_then. destruct (0 <? id) eqn:E.
  - apply Z.ltb_lt in E. rewrite Z.max_r by lia. now rewrite (proj2 (Z.ltb_lt _ _) E).
  - apply Z.ltb_ge in E. rewrite Z.max_l by lia. reflexivity.
Qed.

(** X8. The resolver consults the store only through label lookups with a
    strictly positive id: two pools that agree on those give the same
    answer, whatever else they do; and a key that is zero or negative
    counts as zero. *)
Theorem getLocationName_positive_keys_only :
  (forall pool pool' a b c d e f g h,
      (forall t id, 0 < id ->
         execute pool (SelectLabelById t id)
         = execute pool' (SelectLabelById t id)) ->
      getLocationName pool a b c d e f g h
      = getLocationName pool' a b c d e f g h)
  /\ (forall pool a b c d e f g h,
        getLocationName pool a b c d e f g h
        = getLocationName pool (Z.max 0 a) (Z.max 0 b) (Z.max 0 c)
            (Z.max 0 d) (Z.max 0 e) (Z.max 0 f) (Z.max 0 g) (Z.max 0 h)).
Proof.
  split.
  - intros pool pool' a b c d e f g h H.
    unfold getLocationName, getLocationName_try.
    now rewrite (lookup_then_ext pool pool' location a _ _ H
      (lookup_then_ext pool pool' mk_cat_info b _ _ H
      (lookup_then_ext pool pool' md_cat_info c _ _ H
      (lookup_then_ext pool pool' muas_cat_info d _ _ H
      (lookup_then_ext pool pool' nrt_cat_info e _ _ H
      (lookup_then_ext pool pool' field_cat_info f _ _ H
      (lookup_then_ext pool pool' medical_cat_info g _ _ H
      (lookup_then_ext pool pool' service_cat_info h _ _ H eq_refl)))))))).
  - intros pool a b c d e f g h.
    unfold getLocationName, getLocationName_try.
    now rewrite <- !lookup_then_max.
Qed.

(** Keys -3, 5 on the sample store, against a pool that fails every lookup
    of a non-positive id. *)
Lemma getLocationName_positive_keys_only_witness :
  getLocationName sample_pool (-3) 5 0 0 0 0 0 0
  = getLocationName (refusing_nonpositive sample_pool) (-3) 5 0 0 0 0 0 0
  /\ getLocationName sample_pool (-3) 5 0 0 0 0 0 0
     = getLocationName sample_pool 0 5 0 0 0 0 0 0.
Proof.
  split.
  - apply (proj1 getLocationName_positive_keys_only).
    intros t id Hpos. cbn [refusing_nonpositive execute].
    now rewrite (proj2 (Z.ltb_lt _ _) Hpos).
  - exact (proj2 getLocationName_positive_keys_only
             sample_pool (-3) 5 0 0 0 0 0 0).
Defined.

(* ================================================================== *)
(** * The filter predicate of [server.ts] *)
(* ================================================================== *)

Lemma forallb_optional {A : Type} (f : A -> bool) (g : bool) (c : A) :
  forallb f (if g then [c] else []) = true <-> (g = true -> f c = true).
Proof.
  destruct g; cbn; [rewrite andb_true_r|]; intuition congruence.
Qed.

Lemma eval_location_iff like db r pat :
  eval_cond like db r (LocationIdIsFirstLike pat) = true
  <-> exists id, first_location_like like db pat = Some id
                 /\ location_id (pr r) = Some id.
Proof.
  cbn [eval_cond]. split.
  - destruct (location_id (pr r)) as [a|]; [|discriminate].
    destruct (first_location_like like db pat) as [b|]; [|discriminate].
    intros H. apply Z.eqb_eq in H. subst. now exists b.
  - intros [id [-> ->]]. apply Z.eqb_refl.
Qed.

(** X9. The filters of the list handlers of [server.ts] are a
    conjunction: with valid pagination on a reachable store, the offset
    being a safe integer (at most 2^53 - 1), the answer is
    the page of the qualifying joined rows, and a row qualifies exactly
    when it passes every filter that is present after trimming -- [search]
    on first name, last name or one of the three phones, [province] and
    [state] on the joined names, [location] on the id of the first
    matching location; a filter that is absent restricts nothing. *)
Theorem filters_are_conjunctive :
  forall like db development q l o,
    effective_limit (Query.limit q) = Some l ->
    effective_offset (Query.offset q) = Some o ->
    o <= JS.MAX_SAFE_INTEGER ->
    (exists p,
        Server.contacts development (pool_of like db) q
        = {| status := 200;
             body := ContactList
                       (map (assemble (pool_of like db))
                          (firstn (Z.to_nat l)
                             (skipn (Z.to_nat o)
                                (matching like db (filters q)))))
                       p |})
    /\ (forall r,
          In r (matching like db (filters q))
          <-> In r (joined db)
              /\ (given (Query.search q) = true ->
                  let pat := wrap (JS.trim (text (Query.search q))) in
                  like_col like (f_name (pr r)) pat
                  || like_col like (l_name (pr r)) pat
                  || like_col like (phone (pr r)) pat
                  || like_col like (phone1 (pr r)) pat
                  || like_col like (phone2 (pr r)) pat = true)
              /\ (given (Query.province q) = true ->
                  like_col like (province r)
                    (wrap (JS.trim (text (Query.province q)))) = true)
              /\ (given (Query.state q) = true ->
                  like_col like (state_name r)
                    (wrap (JS.trim (text (Query.state q)))) = true)
              /\ (given (Query.location q) = true ->
                  exists id,
                    first_location_like like db
                      (wrap (JS.trim (text (Query.location q)))) = Some id
                    /\ location_id (pr r) = Some id)).
Proof.
  intros like db development q l o Hl Ho _. split.
  - rewrite contacts_unfold.
    change (@execute (pool_of like db)) with (run like db).
    rewrite (list_handler_on_store like db development q l o Hl Ho).
    destruct (firstn _ _); eexists; reflexivity.
  - intros r. unfold matching, filters.
    rewrite filter_In, !forallb_app, !andb_true_iff, !forallb_optional.
    cbn [eval_cond]. cbv zeta.
    pose proof (eval_location_iff like db r
                  (wrap (JS.trim (text (Query.location q))))) as L.
    cbn [eval_cond] in L. rewrite L. tauto.
Qed.

(** [?search=doe&province=lag] on the sample store. *)
Lemma filters_are_conjunctive_witness :
  exists p,
    Server.contacts false sample_pool
      (Query.mk (Some "Doe") None (Some "Lag") None None None None)
    = {| status := 200;
         body := ContactList
                   [assemble sample_pool
                      {| pr := john; province := Some "Lagos";
                         state_name := Some "Lagos State" |}]
                   p |}.
Proof.
  exact (proj1 (filters_are_conjunctive like_binary sample_db false
                  (Query.mk (Some "Doe") None (Some "Lag") None None None None)
                  50 0 eq_refl eq_refl
                  ltac:(unfold JS.MAX_SAFE_INTEGER; lia))).
Defined.

(* ================================================================== *)
(** * Trimming *)
(* ================================================================== *)

(** The text does not begin with white space. *)
Lemma trimStart_fixed s :
  match s with String c _ => JS.is_space c = false | EmptyString => True end ->
  JS.trimStart s = s.
Proof. destruct s as [|c r]; [reflexivity|]. cbn. now intros ->. Qed.

Lemma trimStart_head s :
  match JS.trimStart s with
  | String c _ => JS.is_space c = false
  | EmptyString => True
  end.
Proof.
  induction s as [|c r IH]; cbn; [exact I|].
  destruct (JS.is_space c) eqn:E; [exact IH | exact E].
Qed.

Lemma trimEnd_head s :
  match s with String c _ => JS.is_space c = false | EmptyString => True end ->
  match JS.trimEnd s with
  | String c _ => JS.is_space c = false
  | EmptyString => True
  end.
Proof.
  destruct s as [|c r]; [trivial|]. cbn [JS.trimEnd]. intros H.
  destruct (JS.trimEnd r); [rewrite H|]; exact H.
Qed.

Lemma trimEnd_idempotent s : JS.trimEnd (JS.trimEnd s) = JS.trimEnd s.
Proof.
  induction s as [|c r IH]; [reflexivity|]. cbn [JS.trimEnd].
  destruct (JS.trimEnd r) as [|c' r'] eqn:E.
  - destruct (JS.is_space c) eqn:S; [reflexivity|].
    cbn [JS.trimEnd]. now rewrite S.
  - cbn [JS.trimEnd]. cbn [JS.trimEnd] in IH.
    destruct (JS.trimEnd r') as [|c'' r'']; now rewrite IH.
Qed.

Lemma trim_idempotent s : JS.trim (JS.trim s) = JS.trim s.
Proof.
  unfold JS.trim.
  rewrite (trimStart_fixed (JS.trimEnd (JS.trimStart s)))
    by apply trimEnd_head, trimStart_head.
  apply trimEnd_idempotent.
Qed.

Lemma trim_empty_of_empty s : JS.truthy (JS.trim s) = true -> JS.truthy s = true.
Proof. destruct s; [discriminate | reflexivity]. Qed.

Lemma given_trimmed p : given (option_map JS.trim p) = given p.
Proof.
  destruct p as [s|]; [|reflexivity]. cbn [option_map given].
  rewrite trim_idempotent.
  destruct (JS.truthy (JS.trim s)) eqn:E.
  - now rewrite (trim_empty_of_empty s E).
  - now rewrite !andb_false_r.
Qed.

Lemma text_trimmed p :
  JS.trim (text (option_map JS.trim p)) = JS.trim (text p).
Proof. destruct p as [s|]; [apply trim_idempotent | reflexivity]. Qed.

Lemma filters_trimmed q : filters (trim_params q) = filters q.
Proof.
  unfold filters, trim_params.
  cbn [Query.search Query.province Query.state Query.location].
  now rewrite !given_trimmed, !text_trimmed.
Qed.

(** X10. White space around the text filters does not matter to the list
    handlers of [server.ts]: a request and the same request with [search],
    [location], [province] and [state] trimmed get the same answer, from
    any pool; a filter made of white space only is no filter. *)
Theorem contacts_ignore_surrounding_space :
  forall development pool q,
    Server.contacts development pool (trim_params q)
    = Server.contacts development pool q
    /\ Server.contacts_alt development pool (trim_params q)
       = Server.contacts_alt development pool q
    /\ (forall s, JS.trim s = "" -> given (Some s) = false).
Proof.
  intros development pool q.
  rewrite !contacts_unfold, !contacts_alt_unfold. unfold list_handler.
  rewrite filters_trimmed. cbn [trim_params Query.limit Query.offset].
  repeat split.
  intros s Hs. cbn [given]. rewrite Hs. now rewrite andb_false_r.
Qed.

(** [?search=%20%20] and [?province=%20Lag%20]. *)
Lemma contacts_ignore_surrounding_space_witness :
  given (Some "  ") = false
  /\ Server.contacts false sample_pool
       (Query.mk None None (Some " Lag ") None None None None)
     = Server.contacts false sample_pool
         (Query.mk None None (Some "Lag") None None None None).
Proof.
  split.
  - apply (proj2 (proj2 (contacts_ignore_surrounding_space
                           false sample_pool no_query))).
    reflexivity.
  - symmetry.
    exact (proj1 (contacts_ignore_surrounding_space false sample_pool
                    (Query.mk None None (Some " Lag ") None None None None))).
Defined.

(* ================================================================== *)
(** * The labels of the locations endpoint *)
(* ================================================================== *)

Lemma includes_In l x : includes l x = true <-> In x l.
Proof.
  unfold includes. rewrite existsb_exists. split.
  - intros [y [Hy E]]. apply String.eqb_eq in E. now subst.
  - intros H. exists x. split; [exact H | apply String.eqb_refl].
Qed.

Lemma truthy_nonempty s : JS.truthy s = true <-> s <> "".
Proof. destruct s; cbn; split; congruence. Qed.

Lemma NoDup_snoc {A : Type} (l : list A) x :
  NoDup l -> ~ In x l -> NoDup (l ++ [x]).
Proof.
  induction 1 as [|a l Ha Hl IH]; cbn; intros Hx.
  - constructor; [intros [] | constructor].
  - constructor.
    + rewrite in_app_iff. cbn. intros [H | [H | []]]; [now elim Ha|].
      subst. elim Hx. now left.
    + apply IH. intros H. elim Hx. now right.
Qed.

Lemma add_label_In locs l x :
  In x (Server.add_label locs l) <-> In x locs \/ (x = l /\ l <> "").
Proof.
  unfold Server.add_label, push.
  destruct (JS.truthy l) eqn:T; cbn [andb].
  - apply truthy_nonempty in T.
    destruct (includes locs l) eqn:I; cbn [negb].
    + apply includes_In in I. split; [now left|].
      intros [H | [-> _]]; assumption.
    + rewrite in_app_iff. cbn. split.
      * intros [H | [<- | []]]; [now left | right; now split].
      * intros [H | [-> _]]; [now left | right; now left].
  - split; [now left|]. intros [H | [_ H]]; [exact H|].
    apply truthy_nonempty in H. congruence.
Qed.

Lemma add_label_NoDup locs l : NoDup locs -> NoDup (Server.add_label locs l).
Proof.
  intros H. unfold Server.add_label, push.
  destruct (JS.truthy l); cbn [andb]; [|exact H].
  destruct (includes locs l) eqn:I; cbn [negb]; [exact H|].
  apply NoDup_snoc; [exact H|]. intros Hin.
  apply includes_In in Hin. congruence.
Qed.

Lemma add_labels_In rows : forall locs x,
  In x (fold_left Server.add_label rows locs)
  <-> In x locs \/ (In x rows /\ x <> "").
Proof.
  induction rows as [|l rows IH]; intros locs x; cbn [fold_left].
  - cbn. tauto.
  - rewrite IH, add_label_In. cbn. split.
    + intros [[H | [-> H]] | [H1 H2]]; auto.
    + intros [H | [[<- | H1] H2]]; auto.
Qed.

Lemma add_labels_NoDup rows : forall locs,
  NoDup locs -> NoDup (fold_left Server.add_label rows locs).
Proof.
  induction rows as [|l rows IH]; intros locs H; [exact H|].
  cbn [fold_left]. now apply IH, add_label_NoDup.
Qed.

Section Gathered.

Variable pool : Pool.

Lemma read_tables_In ts : forall st x,
  In x (snd (fold_left (Server.read_table pool) ts st))
  <-> In x (snd st)
      \/ (x <> ""
          /\ exists t rows,
              In t ts /\ execute pool (SelectLabels t) = Rows rows
              /\ In x rows).
Proof.
  induction ts as [|t ts IH]; intros st x; cbn [fold_left].
  - split; [now left|]. intros [H | [_ [t [rows [[] _]]]]]. exact H.
  - rewrite IH. unfold Server.read_table.
    destruct (execute pool (SelectLabels t)) as [rows|e] eqn:E; cbn [snd].
    + rewrite add_labels_In. split.
      * intros [[H | [H1 H2]] | [Hx [u [rs [Hu [Hr Hin]]]]]].
        -- now left.
        -- right. split; [exact H2|]. exists t, rows. now repeat split; [left|..].
        -- right. split; [exact Hx|]. exists u, rs. now repeat split; [right|..].
      * intros [H | [Hx [u [rs [[<- | Hu] [Hr Hin]]]]]].
        -- left. now left.
        -- rewrite E in Hr. injection Hr as <-. left. right. now split.
        -- right. split; [exact Hx|]. now exists u, rs.
    + split.
      * intros [H | [Hx [u [rs [Hu [Hr Hin]]]]]]; [now left|].
        right. split; [exact Hx|]. exists u, rs. now repeat split; [right|..].
      * intros [H | [Hx [u [rs [[<- | Hu] [Hr Hin]]]]]]; [now left | |].
        -- rewrite E in Hr. discriminate.
        -- right. split; [exact Hx|]. now exists u, rs.
Qed.

Lemma read_tables_NoDup ts : forall st,
  NoDup (snd st) -> NoDup (snd (fold_left (Server.read_table pool) ts st)).
Proof.
  induction ts as [|t ts IH]; intros st H; [exact H|].
  cbn [fold_left]. apply IH. unfold Server.read_table.
  destruct (execute pool (SelectLabels t)); cbn [snd];
    [now apply add_labels_NoDup | exact H].
Qed.

End Gathered.

Lemma insert_sorted_perm s l : Permutation (insert_sorted s l) (s :: l).
Proof.
  induction l as [|x r IH]; cbn; [reflexivity|].
  destruct (String.leb s x); [reflexivity|].
  rewrite IH. apply perm_swap.
Qed.

Lemma sort_perm l : Permutation (sort l) l.
Proof.
  induction l as [|x r IH]; cbn; [reflexivity|].
  rewrite insert_sorted_perm. now constructor.
Qed.

Lemma insert_sorted_HdRel x s r :
  string_le x s -> HdRel string_le x r -> HdRel string_le x (insert_sorted s r).
Proof.
  intros Hxs Hr. destruct r as [|y r']; cbn; [now constructor|].
  destruct (String.leb s y); constructor; [exact Hxs|].
  now inversion Hr.
Qed.

Lemma insert_sorted_Sorted s l :
  Sorted string_le l -> Sorted string_le (insert_sorted s l).
Proof.
  induction 1 as [|x r Hr IH Hx]; cbn.
  - repeat constructor.
  - destruct (String.leb s x) eqn:E.
    + constructor; [now constructor | now constructor].
    + constructor; [exact IH|].
      apply insert_sorted_HdRel; [|exact Hx].
      destruct (String.leb_total s x) as [H | H]; [congruence | exact H].
Qed.

Lemma sort_Sorted l : Sorted string_le (sort l).
Proof.
  induction l as [|x r IH]; cbn; [constructor|].
  now apply insert_sorted_Sorted.
Qed.

(** X11. The answer of [GET /api/locations] in [server.ts], for any pool:
    a 200 whose labels are in ascending code-unit order, without
    duplicates and without the empty string, and are exactly the non-empty
    labels returned by the tables that could be read. *)
Theorem locations_sorted_distinct_complete :
  forall pool,
    exists labels,
      snd (Server.locations pool)
      = {| status := 200; body := Labels labels |}
      /\ Sorted string_le labels
      /\ NoDup labels
      /\ ~ In "" labels
      /\ (forall s,
            In s labels
            <-> s <> ""
                /\ exists t rows,
                    execute pool (SelectLabels t) = Rows rows /\ In s rows).
Proof.
  intros pool. eexists. split; [reflexivity|].
  set (st := fold_left (Server.read_table pool) tables ([], [])).
  assert (Hin : forall s,
             In s (sort (snd st))
             <-> s <> ""
                 /\ exists t rows,
                     execute pool (SelectLabels t) = Rows rows /\ In s rows).
  { intros s. split.
    - intros H. apply (Permutation_in _ (sort_perm _)) in H.
      apply read_tables_In in H.
      destruct H as [[] | [Hs [t [rows [_ [Hr Hx]]]]]].
      split; [exact Hs|]. now exists t, rows.
    - intros [Hs [t [rows [Hr Hx]]]].
      apply (Permutation_in _ (Permutation_sym (sort_perm _))).
      apply read_tables_In. right. split; [exact Hs|].
      exists t, rows. split; [apply In_tables | now split]. }
  split; [apply sort_Sorted|]. split; [|split; [|exact Hin]].
  - apply (Permutation_NoDup (Permutation_sym (sort_perm _))).
    apply read_tables_NoDup. constructor.
  - intros H. apply Hin in H. now destruct H as [H _].
Qed.

(* ================================================================== *)
(** * The older list handler on a reachable store *)
(* ================================================================== *)

Lemma legacy_contacts_on_store like db development q l o :
  JS.parseInt (default_to (Query.limit q) "50") = JS.Int l ->
  JS.parseInt (default_to (Query.offset q) "0") = JS.Int o ->
  0 <= l -> 0 <= o ->
  Legacy.contacts development (pool_of like db) q
  = {| status := 200;
       body :=
         ContactList
           (map (assemble (pool_of like db))
              (firstn (Z.to_nat l)
                 (skipn (Z.to_nat o) (matching like db (legacy_filters q)))))
           (Pagination.mk
              (Z.of_nat (List.length (matching like db (legacy_filters q))))
              (JS.Int l) (JS.Int o)
              (o + Z.of_nat
                     (List.length
                        (map (assemble (pool_of like db))
                           (firstn (Z.to_nat l)
                              (skipn (Z.to_nat o)
                                 (matching like db (legacy_filters q))))))
               <? Z.of_nat (List.length (matching like db (legacy_filters q))))) |}.
Proof.
  intros Hl Ho Rl Ro. unfold Legacy.contacts, legacy_filters.
  rewrite Hl, Ho.
  destruct (present (Query.search q)), (present (Query.province q)),
    (present (Query.state q));
    cbn [push app pool_of execute run num_add num_ltb]; unfold page;
    rewrite (proj2 (Z.ltb_ge l 0) Rl), (proj2 (Z.ltb_ge o 0) Ro);
    reflexivity.
Qed.

(** X12. The older [/api/contacts] handler (part_000) on a reachable
    store, for bounds that read as non-negative integers: the answer is
    200 with the page of the rows that pass its filters, at most [limit]
    of them; [total] is the number of all rows that pass them on every
    page, the empty one included, and [hasMore] holds exactly when rows
    remain after the page. *)
Theorem legacy_contacts_total_is_count :
  forall like db development q l o,
    JS.parseInt (default_to (Query.limit q) "50") = JS.Int l ->
    JS.parseInt (default_to (Query.offset q) "0") = JS.Int o ->
    0 <= l -> 0 <= o ->
    exists data p,
      Legacy.contacts development (pool_of like db) q
      = {| status := 200; body := ContactList data p |}
      /\ data = map (assemble (pool_of like db))
                  (firstn (Z.to_nat l)
                     (skipn (Z.to_nat o)
                        (matching like db (legacy_filters q))))
      /\ Z.of_nat (List.length data) <= l
      /\ Pagination.total p
         = Z.of_nat (List.length (matching like db (legacy_filters q)))
      /\ Pagination.limit p = JS.Int l
      /\ Pagination.offset p = JS.Int o
      /\ (Pagination.hasMore p = true
          <-> o + Z.of_nat (List.length data)
              < Z.of_nat (List.length (matching like db (legacy_filters q)))).
Proof.
  intros like db development q l o Hl Ho Rl Ro.
  rewrite (legacy_contacts_on_store like db development q l o Hl Ho Rl Ro).
  eexists _, _. split; [reflexivity|]. split; [reflexivity|].
  cbn [Pagination.total Pagination.limit Pagination.offset Pagination.hasMore].
  split.
  - rewrite length_map.
    pose proof (firstn_le_length (Z.to_nat l)
                  (skipn (Z.to_nat o) (matching like db (legacy_filters q)))).
    lia.
  - repeat split; try reflexivity; apply Z.ltb_lt.
Qed.

(** [?offset=2] on the sample store: the page is empty and the total is 2. *)
Lemma legacy_contacts_total_is_count_witness :
  exists data p,
    Legacy.contacts false sample_pool
      (Query.mk None None None None None None (Some "2"))
    = {| status := 200; body := ContactList data p |}
    /\ data = []
    /\ Pagination.total p = 2.
Proof.
  destruct (legacy_contacts_total_is_count like_binary sample_db false
              (Query.mk None None None None None None (Some "2"))
              50 2 eq_refl eq_refl ltac:(lia) ltac:(lia))
    as (data & p & Hresp & Hdata & _ & Htotal & _).
  exists data, p. split; [exact Hresp|]. split; [exact Hdata | exact Htotal].
Defined.

(** The older locations handler with the [location] table unreadable. *)
Lemma legacy_locations_fatal_witness :
  Legacy.locations (without_table location sample_pool)
  = {| status := 500; body := Failure "Internal server error" None |}.
Proof.
  exact (legacy_locations_fatal (without_table location sample_pool)
           location "table unavailable" eq_refl).
Defined.

(** The second page of size one of the sample store. *)
Lemma contacts_page_sound_witness :
  exists l o,
    effective_limit (Some "1") = Some l
    /\ effective_offset (Some "1") = Some o
    /\ Z.of_nat (List.length [assemble sample_pool
                                {| pr := ada; province := None;
                                   state_name := None |}]) <= l
    /\ (false = true <-> o + 1 < 2).
Proof.
  destruct (contacts_page_sound like_binary sample_db false
              (Query.mk None None None None None (Some "1") (Some "1"))
              [assemble sample_pool
                 {| pr := ada; province := None; state_name := None |}]
              (Pagination.mk 2 (JS.Int 1) (JS.Int 1) false) eq_refl)
    as (l & o & Hl & Ho & Hlen & Hmore & _).
  exists l, o. repeat split; try assumption; apply Hmore.
Defined.

(* ================================================================== *)
(** * Statuses and error bodies *)
(* ================================================================== *)




(* ================================================================== *)
(** * Probes of the store *)
(* ================================================================== *)



(* ================================================================== *)
(** * The contacts sent to clients *)
(* ================================================================== *)

Lemma assemble_well_formed pool row : well_formed (assemble pool row).
Proof.
  unfold well_formed. cbn [assemble Contact.name Contact.category
    Contact.location Contact.whatsapp Contact.phone].
  split; [|split; [reflexivity|split; [reflexivity|split]]].
  - unfold JS.or_else.
    destruct (JS.truthy (JS.trim _)) eqn:T;
      [now apply truthy_nonempty | discriminate].
  - now intros ->.
  - intros H. split;
      [apply formatWhatsAppNumber_digits | now apply formatWhatsAppNumber_prefix].
Qed.

(** X15. Every contact that a handler sends -- the list handlers and
    get-by-id of [server.ts], the list handler of the older copy, from any
    pool -- has a non-empty name, the same text as [location] and
    [category], and a [whatsapp] that is the normalised [phone]: empty
    when there is no phone, digits starting with "234" otherwise. *)
Theorem contacts_are_well_formed :
  (forall development pool q data p,
      body (Server.contacts development pool q) = ContactList data p ->
      Forall well_formed data)
  /\ (forall development pool q data p,
        body (Server.contacts_alt development pool q) = ContactList data p ->
        Forall well_formed data)
  /\ (forall pool id c,
        body (Server.contact_by_id pool id) = ContactItem c -> well_formed c)
  /\ (forall development pool q data p,
        body (Legacy.contacts development pool q) = ContactList data p ->
        Forall well_formed data).
Proof.
  assert (M : forall pool rows,
             Forall well_formed (map (assemble pool) rows)).
  { intros pool rows. apply Forall_forall. intros c Hc.
    apply in_map_iff in Hc. destruct Hc as [row [<- _]].
    apply assemble_well_formed. }
  assert (L : forall development run pool q data p,
             body (list_handler development run pool q) = ContactList data p ->
             Forall well_formed data).
  { intros development run pool q data p. unfold list_handler.
    destruct (effective_limit (Query.limit q)) as [l|]; [|discriminate].
    destruct (effective_offset (Query.offset q)) as [o|]; [|discriminate].
    destruct (run _ (SelectContacts (filters q) l o)) as [[|r rows]|m];
      cbn [body]; try discriminate.
    - intros [= <- _]. constructor.
    - destruct (run _ (CountContacts (filters q))); cbn [body];
        [|discriminate].
      intros [= <- _]. apply (M pool (r :: rows)). }
  split; [|split; [|split]].
  - intros development pool q data p. rewrite contacts_unfold. apply L.
  - intros development pool q data p. rewrite contacts_alt_unfold. apply L.
  - intros pool id c. unfold Server.contact_by_id.
    destruct (JS.parseInt10 id) as [|n]; [discriminate|].
    destruct (execute pool (SelectContactById n)) as [[|row rows]|m];
      cbn [body]; try discriminate.
    intros [= <-]. apply (assemble_well_formed pool row).
  - intros development pool q data p. unfold Legacy.contacts.
    destruct (execute pool (SelectContactsBound _ _ _)) as [rows|m];
      [|discriminate].
    destruct (execute pool (CountContacts _)); cbn [body]; [|discriminate].
    intros [= <- _]. apply (M pool rows).
Qed.

(** The contact of [/api/contacts/1] on the sample store. *)
Lemma contacts_are_well_formed_witness :
  well_formed
    (assemble sample_pool
       {| pr := john; province := Some "Lagos";
          state_name := Some "Lagos State" |}).
Proof.
  exact (proj1 (proj2 (proj2 contacts_are_well_formed))
           sample_pool "1" _ eq_refl).
Defined.

Lemma text_or_empty v d : text_or v d = "" -> falsy v \/ d = "".
Proof.
  unfold text_or, JS.or_else, falsy.
  destruct v as [[|c s]|]; cbn; intros H; auto; discriminate.
Qed.

(** X16. The [phone] of an assembled contact is the first of the
    record's [phone], [phone1] and [phone2] that is neither NULL nor
    empty, and it is empty only when all three are NULL or empty. *)
Theorem primary_phone_is_first_non_empty :
  forall pool row,
    let c := assemble pool row in
    (Contact.phone c = ""
     <-> falsy (phone (pr row)) /\ falsy (phone1 (pr row))
         /\ falsy (phone2 (pr row)))
    /\ (~ falsy (phone (pr row)) -> Some (Contact.phone c) = phone (pr row))
    /\ (falsy (phone (pr row)) -> ~ falsy (phone1 (pr row)) ->
        Some (Contact.phone c) = phone1 (pr row))
    /\ (falsy (phone (pr row)) -> falsy (phone1 (pr row)) ->
        ~ falsy (phone2 (pr row)) ->
        Some (Contact.phone c) = phone2 (pr row)).
Proof.
  intros pool row c. subst c. cbn [assemble Contact.phone].
  unfold text_or, JS.or_else, falsy.
  destruct (phone (pr row)) as [[|c1 s1]|],
           (phone1 (pr row)) as [[|c2 s2]|],
           (phone2 (pr row)) as [[|c3 s3]|];
    cbn; repeat split; intros; try reflexivity;
    try discriminate; try tauto;
    repeat match goal with
           | H : _ /\ _ |- _ => destruct H
           | H : _ \/ _ |- _ => destruct H
           | H : ~ _ |- _ => elim H; clear H; auto
           end; try discriminate; auto.
Qed.

(** Ada has no [phone], a [phone1] and no [phone2]. *)
Lemma primary_phone_is_first_non_empty_witness :
  Some (Contact.phone
          (assemble sample_pool
             {| pr := ada; province := None; state_name := None |}))
  = Some "8031234567".
Proof.
  apply (proj1 (proj2 (proj2 (primary_phone_is_first_non_empty sample_pool
           {| pr := ada; province := None; state_name := None |})))).
  - left. reflexivity.
  - intros [H | H]; discriminate H.
Defined.

(* ================================================================== *)
(** * Paging through the list *)
(* ================================================================== *)

Lemma firstn_add {A : Type} (a b : nat) (l : list A) :
  firstn (a + b) l = (firstn a l ++ firstn b (skipn a l))%list.
Proof.
  revert l. induction a as [|a IH]; intros l; [reflexivity|].
  destruct l as [|x l]; cbn [Nat.add firstn skipn app].
  - now rewrite firstn_nil.
  - now rewrite IH.
Qed.

Lemma effective_offset_toString n :
  0 <= n -> effective_offset (Some (JS.toString n)) = Some n.
Proof.
  intros Hn. pose proof (toString_read_back n) as R.
  unfold effective_offset.
  destruct (JS.toString n) as [|c s]; [discriminate R|].
  rewrite R. apply f_equal. lia.
Qed.

Lemma data_of_on_store like db development run' q l o :
  run' = run like db ->
  effective_limit (Query.limit q) = Some l ->
  effective_offset (Query.offset q) = Some o ->
  data_of (list_handler development run' (pool_of like db) q)
  = map (assemble (pool_of like db))
      (firstn (Z.to_nat l)
         (skipn (Z.to_nat o) (matching like db (filters q)))).
Proof.
  intros -> Hl Ho.
  rewrite (list_handler_on_store like db development q l o Hl Ho).
  now destruct (firstn _ _).
Qed.

(** X21. Paging through either list endpoint of [server.ts] on a
    reachable store that does not change.  A page and the page requested
    next (same filters and limit, [offset] moved on by the effective
    limit) are together the first [2 * limit] matching rows from
    [offset] on, in the store's order: no row is skipped and none is
    listed twice.  When an answer says [hasMore: false], the next page is
    empty. *)
Theorem contacts_next_page :
  forall like db development q l o,
    effective_limit (Query.limit q) = Some l ->
    effective_offset (Query.offset q) = Some o ->
    let pool := pool_of like db in
    let next := with_offset q (o + l) in
    (data_of (Server.contacts development pool q)
     ++ data_of (Server.contacts development pool next))%list
    = map (assemble pool)
        (firstn (Z.to_nat (2 * l))
           (skipn (Z.to_nat o) (matching like db (filters q))))
    /\ data_of (Server.contacts_alt development pool q)
       = data_of (Server.contacts development pool q)
    /\ (forall data p,
          Server.contacts development pool q
          = {| status := 200; body := ContactList data p |} ->
          Pagination.hasMore p = false ->
          data_of (Server.contacts development pool next) = []).
Proof.
  intros like db development q l o Hl Ho pool next. subst pool next.
  pose proof (effective_limit_range _ _ Hl) as Rl.
  pose proof (effective_offset_range _ _ Ho) as Ro.
  assert (Hl' : effective_limit (Query.limit (with_offset q (o + l)))
                = Some l) by exact Hl.
  assert (Ho' : effective_offset (Query.offset (with_offset q (o + l)))
                = Some (o + l))
    by (apply effective_offset_toString; lia).
  assert (Hnext :
            data_of (Server.contacts development (pool_of like db)
                       (with_offset q (o + l)))
            = map (assemble (pool_of like db))
                (firstn (Z.to_nat l)
                   (skipn (Z.to_nat l)
                      (skipn (Z.to_nat o) (matching like db (filters q)))))).
  { rewrite contacts_unfold.
    rewrite (data_of_on_store like db development
               (@execute (pool_of like db)) _ l (o + l) eq_refl Hl' Ho').
    rewrite skipn_skipn.
    replace (Z.to_nat l + Z.to_nat o)%nat with (Z.to_nat (o + l)) by lia.
    reflexivity. }
  split; [|split].
  - rewrite Hnext, contacts_unfold.
    rewrite (data_of_on_store like db development
               (@execute (pool_of like db)) _ l o eq_refl Hl Ho).
    rewrite <- map_app, <- firstn_add.
    replace (Z.to_nat l + Z.to_nat l)%nat with (Z.to_nat (2 * l)) by lia.
    reflexivity.
  - rewrite contacts_unfold, contacts_alt_unfold.
    rewrite (data_of_on_store like db development
               (@execute (pool_of like db)) _ l o eq_refl Hl Ho).
    now rewrite (data_of_on_store like db development
                   (@query (pool_of like db)) _ l o eq_refl Hl Ho).
  - intros data p Hresp Hmore. rewrite Hnext.
    rewrite contacts_unfold in Hresp.
    change (@execute (pool_of like db)) with (run like db) in Hresp.
    rewrite (list_handler_on_store like db development q l o Hl Ho) in Hresp.
    destruct (firstn (Z.to_nat l)
                (skipn (Z.to_nat o) (matching like db (filters q))))
      as [|r rows] eqn:E.
    + apply firstn_skipn_nil in E; [|lia].
      rewrite (skipn_all2 (n := Z.to_nat o)) by exact E.
      now rewrite skipn_nil, firstn_nil.
    + injection Hresp as _ Hp. subst p.
      cbn [Pagination.hasMore] in Hmore. apply Z.ltb_ge in Hmore.
      pose proof (firstn_le_length (Z.to_nat l)
                    (skipn (Z.to_nat o) (matching like db (filters q))))
        as Hle.
      rewrite E in Hle.
      rewrite skipn_skipn, skipn_all2; [now rewrite firstn_nil|].
      rewrite Zpos_P_of_succ_nat in Hmore. cbn [List.length] in Hle. lia.
Qed.

(** Pages of one contact on the sample store: the first and the second
    are the two records. *)
Lemma contacts_next_page_witness :
  (data_of (Server.contacts false sample_pool
              (Query.mk None None None None None (Some "1") None))
   ++ data_of (Server.contacts false sample_pool
                 (Query.mk None None None None None (Some "1") (Some "1"))))%list
  = map (assemble sample_pool) (joined sample_db).
Proof.
  exact (proj1 (contacts_next_page like_binary sample_db false
                  (Query.mk None None None None None (Some "1") None)
                  1 0 eq_refl eq_refl)).
Defined.

(* ================================================================== *)
(** * The two copies of the list handler *)
(* ================================================================== *)




